(** * Cue-sheet editor: timeline view-model, cue store and cue list

    A shallow embedding of the TypeScript sources

    - [App.tsx]        (cue store, import, export, audio upload),
    - [Timeline] in [components/Controls.tsx] (zoom, pan, drag, seek),
    - [CueList.tsx]    (the sorted, time-annotated cue list),
    - [types.ts]       (the [Cue] interface),

    followed by the properties proved about them.

    Conventions of the model.

    - A JavaScript [number] is a value of [num]: a rational computed
      exactly, or one of [Infinity], [-Infinity], [NaN].  Rounding of
      binary64 arithmetic and the sign of zero are not represented; the
      non-finite values and the way they propagate are.
    - React state is a record; an event handler is a function from the
      state it closes over to the state after its [set...] calls, paired
      with the callbacks it invoked, in order.
    - An exception is a value of [res]; [try]/[catch] is a [match]. *)

From Stdlib Require Import QArith Qround Qabs Qminmax Lia Lqa.
From Stdlib Require Import List String Ascii Bool Sorted Permutation.
From Stdlib Require Import DecimalString PeanoNat Finite.
Import ListNotations.

Set Warnings "-register-all".

(* ================================================================== *)
(** * JavaScript numbers *)
(* ================================================================== *)

Module JsNum.

Inductive num : Type :=
| Fin (q : Q)
| PInf
| NInf
| NaN.

Definition Qlt_bool (a b : Q) : bool := negb (Qle_bool b a).

Definition is_zero (q : Q) : bool := Qeq_bool q 0.

Definition is_finite (n : num) : bool :=
  match n with Fin _ => true | _ => false end.

Definition is_nan (n : num) : bool :=
  match n with NaN => true | _ => false end.

(** Unary minus. *)
Definition nneg (a : num) : num :=
  match a with
  | Fin q => Fin (- q)
  | PInf => NInf
  | NInf => PInf
  | NaN => NaN
  end.

(** [a + b] *)
Definition nadd (a b : num) : num :=
  match a, b with
  | NaN, _ | _, NaN => NaN
  | Fin x, Fin y => Fin (x + y)
  | PInf, NInf | NInf, PInf => NaN
  | PInf, _ | _, PInf => PInf
  | NInf, _ | _, NInf => NInf
  end.

(** [a - b] *)
Definition nsub (a b : num) : num := nadd a (nneg b).

(** Sign of an infinite product or quotient: [pos] tells whether the two
    signs agree. *)
Definition inf_of_sign (pos : bool) : num := if pos then PInf else NInf.

(** [a * b] *)
Definition nmul (a b : num) : num :=
  match a, b with
  | NaN, _ | _, NaN => NaN
  | Fin x, Fin y => Fin (x * y)
  | Fin x, PInf | PInf, Fin x =>
      if is_zero x then NaN else inf_of_sign (Qlt_bool 0 x)
  | Fin x, NInf | NInf, Fin x =>
      if is_zero x then NaN else inf_of_sign (Qlt_bool x 0)
  | PInf, PInf | NInf, NInf => PInf
  | PInf, NInf | NInf, PInf => NInf
  end.

(** [a / b].  A zero divisor is the positive zero. *)
Definition ndiv (a b : num) : num :=
  match a, b with
  | NaN, _ | _, NaN => NaN
  | Fin x, Fin y =>
      if is_zero y then
        if is_zero x then NaN else inf_of_sign (Qlt_bool 0 x)
      else Fin (x / y)
  | Fin _, PInf | Fin _, NInf => Fin 0
  | PInf, Fin y => inf_of_sign (Qle_bool 0 y)
  | NInf, Fin y => inf_of_sign (Qlt_bool y 0)
  | _, _ => NaN
  end.

(** The comparisons [<], [<=], [>], [>=]: false as soon as one side is
    [NaN]. *)
Definition nlt (a b : num) : bool :=
  match a, b with
  | NaN, _ | _, NaN => false
  | Fin x, Fin y => Qlt_bool x y
  | NInf, NInf | PInf, _ => false
  | NInf, _ => true
  | Fin _, PInf => true
  | Fin _, NInf => false
  end.

Definition nle (a b : num) : bool :=
  match a, b with
  | NaN, _ | _, NaN => false
  | Fin x, Fin y => Qle_bool x y
  | NInf, _ => true
  | PInf, PInf => true
  | PInf, _ => false
  | Fin _, PInf => true
  | Fin _, NInf => false
  end.

Definition ngt (a b : num) : bool := nlt b a.
Definition nge (a b : num) : bool := nle b a.

(** [Math.max(a, b)] and [Math.min(a, b)]: [NaN] when an argument is. *)
Definition Math_max (a b : num) : num :=
  match a, b with
  | NaN, _ | _, NaN => NaN
  | _, _ => if nle a b then b else a
  end.

Definition Math_min (a b : num) : num :=
  match a, b with
  | NaN, _ | _, NaN => NaN
  | _, _ => if nle a b then a else b
  end.

(** [Math.floor(a)] *)
Definition Math_floor (a : num) : num :=
  match a with
  | Fin q => Fin (inject_Z (Qfloor q))
  | _ => a
  end.

(** [Math.round(a)]: the nearest integer, a tie going up. *)
Definition Math_round (a : num) : num :=
  match a with
  | Fin q => Fin (inject_Z (Qfloor (q + (1 # 2))))
  | _ => a
  end.

(** [Math.abs(a)] *)
Definition Math_abs (a : num) : num :=
  match a with
  | Fin q => Fin (Qabs q)
  | NInf => PInf
  | _ => a
  end.

(** Truthiness of a number: everything but zero and [NaN]. *)
Definition num_truthy (a : num) : bool :=
  match a with
  | Fin q => negb (is_zero q)
  | NaN => false
  | _ => true
  end.

(** Two numbers denote the same value. *)
Definition num_eq (a b : num) : Prop :=
  match a, b with
  | Fin x, Fin y => x == y
  | PInf, PInf | NInf, NInf | NaN, NaN => True
  | _, _ => False
  end.

(** [a === b] on numbers: as [num_eq], except that [NaN] differs from
    itself. *)
Definition num_strict_eq (a b : num) : bool :=
  match a, b with
  | Fin x, Fin y => Qeq_bool x y
  | PInf, PInf | NInf, NInf => true
  | _, _ => false
  end.

(** [Math.ceil(a)] *)
Definition Math_ceil (a : num) : num :=
  match a with
  | Fin q => Fin (inject_Z (Qceiling q))
  | _ => a
  end.

(** A natural number, as a number. *)
Definition of_nat (n : nat) : num := Fin (inject_Z (Z.of_nat n)).

(** [Math.max(0, Math.min(d, t))] on finite numbers. *)
Definition Qclamp (d t : Q) : Q :=
  let m := if Qle_bool d t then d else t in
  if Qle_bool 0 m then m else 0.

(** [r] is [raw] clamped to [[0, d]], said by inequalities alone: [r] lies
    in the range, it is [raw] when [raw] lies there, 0 when [raw] is below
    and [d] when [raw] is above. *)
Definition clamped_to (d raw r : Q) : Prop :=
  0 <= r <= d /\
  (0 <= raw <= d -> r == raw) /\
  (raw <= 0 -> r == 0) /\
  (d <= raw -> r == d).

End JsNum.
Export JsNum.

Declare Scope num_scope.
Delimit Scope num_scope with num.
Bind Scope num_scope with num.
Infix "+" := nadd : num_scope.
Infix "-" := nsub : num_scope.
Infix "*" := nmul : num_scope.
Infix "/" := ndiv : num_scope.
Infix "<?" := nlt (at level 70) : num_scope.
Infix "<=?" := nle (at level 70) : num_scope.
Infix ">?" := ngt (at level 70) : num_scope.
Infix ">=?" := nge (at level 70) : num_scope.
Infix "=~" := num_eq (at level 70) : num_scope.


(* ================================================================== *)
(** * JavaScript values, exceptions and the JSON boundary *)
(* ================================================================== *)

Module JsVal.

(** The values a parsed JSON document is made of, and [undefined]. *)
Inductive jsval : Type :=
| VUndef
| VNull
| VBool (b : bool)
| VNum (n : num)
| VStr (s : string)
| VArr (elems : list jsval)
| VObj (props : list (string * jsval)).

Inductive exn : Type :=
| TypeError
| SyntaxError
| DecodeError.

(** Outcome of an expression that may throw. *)
Inductive res (A : Type) : Type :=
| Ok (a : A)
| Throw (e : exn).
Arguments Ok {A} a.
Arguments Throw {A} e.

Definition bind {A B : Type} (r : res A) (k : A -> res B) : res B :=
  match r with
  | Ok a => k a
  | Throw e => Throw e
  end.

Notation "'let?' x ':=' r 'in' k" := (bind r (fun x => k))
  (at level 10, x name, r at level 100, k at level 200).

(** Truthiness, and [a || b]. *)
Definition truthy (v : jsval) : bool :=
  match v with
  | VUndef | VNull => false
  | VBool b => b
  | VNum n => num_truthy n
  | VStr s => negb (String.eqb s "")
  | VArr _ | VObj _ => true
  end.

Definition js_or (a b : jsval) : jsval := if truthy a then a else b.

(** Own properties of an object, as [JSON.parse] leaves them. *)
Fixpoint own_prop (props : list (string * jsval)) (k : string) : jsval :=
  match props with
  | [] => VUndef
  | (k', v) :: rest => if String.eqb k k' then v else own_prop rest k
  end.

Fixpoint has_own (props : list (string * jsval)) (k : string) : bool :=
  match props with
  | [] => false
  | (k', _) :: rest => String.eqb k k' || has_own rest k
  end.

(** [v.k] for the keys the program reads ([cues], [id], [time], [label],
    [color], [row]): none of them is defined on a prototype, an array or
    a string, so only an object's own property answers; reading a
    property of [null] or [undefined] throws. *)
Definition get (v : jsval) (k : string) : res jsval :=
  match v with
  | VUndef | VNull => Throw TypeError
  | VObj props => Ok (own_prop props k)
  | _ => Ok VUndef
  end.

Definition Array_isArray (v : jsval) : bool :=
  match v with VArr _ => true | _ => false end.

Definition typeof (v : jsval) : string :=
  match v with
  | VUndef => "undefined"
  | VNull | VArr _ | VObj _ => "object"
  | VBool _ => "boolean"
  | VNum _ => "number"
  | VStr _ => "string"
  end.

(** ** [Number(s)] on a string (ASCII white space and digits) *)

Definition is_ws (c : ascii) : bool :=
  let n := nat_of_ascii c in
  Nat.eqb n 9 || Nat.eqb n 10 || Nat.eqb n 11 || Nat.eqb n 12 ||
  Nat.eqb n 13 || Nat.eqb n 32.

Fixpoint drop_ws (l : list ascii) : list ascii :=
  match l with
  | c :: r => if is_ws c then drop_ws r else l
  | [] => []
  end.

Definition trim (l : list ascii) : list ascii :=
  rev (drop_ws (rev (drop_ws l))).

(** Value of a digit in a base up to sixteen. *)
Definition digit_val (base : Z) (c : ascii) : option Z :=
  let n := Z.of_nat (nat_of_ascii c) in
  let d :=
    if (48 <=? n)%Z && (n <=? 57)%Z then Some (n - 48)%Z
    else if (97 <=? n)%Z && (n <=? 102)%Z then Some (n - 87)%Z
    else if (65 <=? n)%Z && (n <=? 70)%Z then Some (n - 55)%Z
    else None in
  match d with
  | Some v => if (v <? base)%Z then Some v else None
  | None => None
  end.

(** A whole string of digits, most significant first. *)
Fixpoint digits (base acc : Z) (l : list ascii) : option Z :=
  match l with
  | [] => Some acc
  | c :: r =>
      match digit_val base c with
      | Some d => digits base (acc * base + d)%Z r
      | None => None
      end
  end.

(** Longest prefix of decimal digits, and what follows it. *)
Fixpoint span_digits (l : list ascii) : list ascii * list ascii :=
  match l with
  | c :: r =>
      match digit_val 10 c with
      | Some _ => let (ds, rest) := span_digits r in (c :: ds, rest)
      | None => ([], l)
      end
  | [] => ([], [])
  end.

Definition is_nil {A : Type} (l : list A) : bool :=
  match l with [] => true | _ => false end.

(** The exponent part: empty, or [e]/[E], a sign, digits to the end. *)
Definition exponent (l : list ascii) : option Z :=
  match l with
  | [] => Some 0%Z
  | c :: r =>
      if Ascii.eqb c "e" || Ascii.eqb c "E" then
        let (neg, r') :=
          match r with
          | s :: r' =>
              if Ascii.eqb s "-" then (true, r')
              else if Ascii.eqb s "+" then (false, r')
              else (false, r)
          | [] => (false, r)
          end in
        if is_nil r' then None
        else match digits 10 0 r' with
             | Some e => Some (if neg then - e else e)%Z
             | None => None
             end
      else None
  end.

(** An unsigned decimal literal: digits, a fraction, an exponent. *)
Definition unsigned_decimal (l : list ascii) : num :=
  if list_eq_dec ascii_dec l (list_ascii_of_string "Infinity") then PInf
  else
    let (ip, r1) := span_digits l in
    let (fp, r2) :=
      match r1 with
      | c :: r => if Ascii.eqb c "." then span_digits r else ([], r1)
      | [] => ([], r1)
      end in
    if is_nil ip && is_nil fp then NaN
    else
      match digits 10 0 (ip ++ fp), exponent r2 with
      | Some m, Some e =>
          Fin (inject_Z m * Qpower 10 (e - Z.of_nat (List.length fp)))
      | _, _ => NaN
      end.

(** A literal with a radix prefix; it takes no sign. *)
Definition radix_literal (l : list ascii) : option num :=
  match l with
  | z :: p :: r =>
      if Ascii.eqb z "0" then
        let base :=
          if Ascii.eqb p "x" || Ascii.eqb p "X" then Some 16%Z
          else if Ascii.eqb p "o" || Ascii.eqb p "O" then Some 8%Z
          else if Ascii.eqb p "b" || Ascii.eqb p "B" then Some 2%Z
          else None in
        match base with
        | Some b =>
            if is_nil r then Some NaN
            else match digits b 0 r with
                 | Some v => Some (Fin (inject_Z v))
                 | None => Some NaN
                 end
        | None => None
        end
      else None
  | _ => None
  end.

Definition StringToNumber (s : string) : num :=
  let l := trim (list_ascii_of_string s) in
  match l with
  | [] => Fin 0
  | c :: r =>
      match radix_literal l with
      | Some n => n
      | None =>
          if Ascii.eqb c "-" then nneg (unsigned_decimal r)
          else if Ascii.eqb c "+" then unsigned_decimal r
          else unsigned_decimal l
      end
  end.

(** ** [Number(v)] *)

(** Converting an object to a primitive throws when the object has an own
    [toString] property: the property of a parsed document is no
    function, and the inherited [valueOf] returns the object. *)
Fixpoint to_string_throws (v : jsval) : bool :=
  match v with
  | VObj props => has_own props "toString"
  | VArr elems => existsb to_string_throws elems
  | _ => false
  end.

(** [Number(v)] when nothing throws.  An array is first joined with
    commas: the empty array gives the empty string, a singleton the string
    of its element ([null] and [undefined] giving the empty string), and
    any longer array a string with a comma, which is no number. *)
Fixpoint ToNumber (v : jsval) : num :=
  match v with
  | VUndef => NaN
  | VNull => Fin 0
  | VBool b => if b then Fin 1 else Fin 0
  | VNum n => n
  | VStr s => StringToNumber s
  | VObj _ => NaN
  | VArr [] => Fin 0
  | VArr [x] =>
      match x with
      | VUndef | VNull => Fin 0
      | VBool _ => NaN
      | _ => ToNumber x
      end
  | VArr _ => NaN
  end.

Definition Number (v : jsval) : res num :=
  if to_string_throws v then Throw TypeError else Ok (ToNumber v).

(** ** [===] *)

(** Strict equality of primitives.  Arrays and objects are compared by
    structure: the model has no references, and a document holds one
    object per position. *)
Fixpoint strict_eq (a b : jsval) : bool :=
  match a, b with
  | VUndef, VUndef | VNull, VNull => true
  | VBool x, VBool y => Bool.eqb x y
  | VNum x, VNum y => num_strict_eq x y
  | VStr x, VStr y => String.eqb x y
  | VArr xs, VArr ys =>
      (fix all2 (l1 l2 : list jsval) : bool :=
         match l1, l2 with
         | [], [] => true
         | x :: r1, y :: r2 => strict_eq x y && all2 r1 r2
         | _, _ => false
         end) xs ys
  | VObj ps, VObj qs =>
      (fix all2 (l1 l2 : list (string * jsval)) : bool :=
         match l1, l2 with
         | [], [] => true
         | (k, x) :: r1, (k', y) :: r2 =>
             String.eqb k k' && strict_eq x y && all2 r1 r2
         | _, _ => false
         end) ps qs
  | _, _ => false
  end.

(** A value that is not an array or an object.  Against such a value
    [===] looks at no reference, and [strict_eq] is [===] itself. *)
Definition primitive (v : jsval) : bool :=
  match v with
  | VArr _ | VObj _ => false
  | _ => true
  end.

(** ** The document [JSON.stringify] writes, as [JSON.parse] reads it back

    A non-finite number is written [null]; [undefined] is written [null]
    inside an array and its property is left out of an object. *)
Fixpoint json_of (v : jsval) : jsval :=
  match v with
  | VUndef => VNull
  | VNum n => if is_finite n then VNum n else VNull
  | VArr elems => VArr (map json_of elems)
  | VObj props =>
      VObj ((fix go (l : list (string * jsval)) : list (string * jsval) :=
               match l with
               | [] => []
               | (k, VUndef) :: r => go r
               | (k, x) :: r => (k, json_of x) :: go r
               end) props)
  | _ => v
  end.

End JsVal.
Export JsVal.

(* ================================================================== *)
(** * [types.ts] and [App.tsx]: the cue store and the project *)
(* ================================================================== *)

Module App.

(** [interface Cue].  At run time [id], [label] and [color] hold what the
    import put there, which the interface says is a string. *)
Record Cue : Type := mkCue {
  id : jsval;
  time : num;
  label : jsval;
  color : jsval;
  row : num
}.

(** [Partial<Cue>]: the fields an update carries. *)
Record CueUpdate : Type := mkUpdate {
  u_time : option num;
  u_label : option jsval;
  u_color : option jsval;
  u_row : option num
}.

(** [{ ...c, ...updates }] *)
Definition merge (c : Cue) (u : CueUpdate) : Cue :=
  {| id := id c;
     time := match u_time u with Some t => t | None => time c end;
     label := match u_label u with Some l => l | None => label c end;
     color := match u_color u with Some k => k | None => color c end;
     row := match u_row u with Some r => r | None => row c end |}.

(** What the program reads of a decoded [AudioBuffer]. *)
Record AudioBuffer : Type := mkBuffer {
  buf_duration : num;
  buf_channel0 : list num
}.

(** A started [AudioBufferSourceNode]. *)
Record SourceNode : Type := mkSource {
  src_offset : num
}.

(** The state of the [App] component: its [useState] cells and the refs
    of the playback logic. *)
Record State : Type := mkState {
  audioBuffer : option AudioBuffer;
  fileName : option string;
  isPlaying : bool;
  currentTime : num;
  duration : num;
  cues : list Cue;
  sourceNodeRef : option SourceNode;
  startTimeRef : num;
  pauseTimeRef : num
}.

(** What a handler shows or hands to the user. *)
Inductive effect : Type :=
| Alert (msg : string)
| ConsoleError (msg : string)
| Download (name : string) (document : jsval).

Definition setCues (cs : list Cue) (st : State) : State :=
  {| audioBuffer := audioBuffer st; fileName := fileName st;
     isPlaying := isPlaying st; currentTime := currentTime st;
     duration := duration st; cues := cs;
     sourceNodeRef := sourceNodeRef st; startTimeRef := startTimeRef st;
     pauseTimeRef := pauseTimeRef st |}.

Definition setCurrentTime (t : num) (st : State) : State :=
  {| audioBuffer := audioBuffer st; fileName := fileName st;
     isPlaying := isPlaying st; currentTime := t;
     duration := duration st; cues := cues st;
     sourceNodeRef := sourceNodeRef st; startTimeRef := startTimeRef st;
     pauseTimeRef := pauseTimeRef st |}.

Definition setPauseTime (t : num) (st : State) : State :=
  {| audioBuffer := audioBuffer st; fileName := fileName st;
     isPlaying := isPlaying st; currentTime := currentTime st;
     duration := duration st; cues := cues st;
     sourceNodeRef := sourceNodeRef st; startTimeRef := startTimeRef st;
     pauseTimeRef := t |}.

(** ** Playback *)

Definition playAudio (startOffset ctxTime : num) (st : State) : State :=
  match audioBuffer st with
  | None => st
  | Some _ =>
      {| audioBuffer := audioBuffer st; fileName := fileName st;
         isPlaying := true; currentTime := currentTime st;
         duration := duration st; cues := cues st;
         sourceNodeRef := Some (mkSource startOffset);
         startTimeRef := (ctxTime - startOffset)%num;
         pauseTimeRef := pauseTimeRef st |}
  end.

Definition pauseAudio (st : State) : State :=
  {| audioBuffer := audioBuffer st; fileName := fileName st;
     isPlaying := false; currentTime := currentTime st;
     duration := duration st; cues := cues st;
     sourceNodeRef := None; startTimeRef := startTimeRef st;
     pauseTimeRef := currentTime st |}.

Definition handleStop (st : State) : State :=
  setPauseTime (Fin 0) (setCurrentTime (Fin 0) (pauseAudio st)).

Definition handlePlayPause (ctxTime : num) (st : State) : State :=
  if isPlaying st then pauseAudio st
  else if (currentTime st >=? duration st)%num
       then playAudio (Fin 0) ctxTime (setCurrentTime (Fin 0) st)
       else playAudio (currentTime st) ctxTime st.

Definition handleSeek (t ctxTime : num) (st : State) : State :=
  let wasPlaying := isPlaying st in
  let st1 := if wasPlaying then pauseAudio st else st in
  let st2 := setPauseTime t (setCurrentTime t st1) in
  if wasPlaying then playAudio t ctxTime st2 else st2.

(** The playback loop, one animation frame; [now] is
    [audioCtx.currentTime].  The boolean tells whether the next frame was
    requested. *)
Definition updateProgress (now : num) (st : State) : State * bool :=
  if negb (isPlaying st) then (st, false)
  else
    let elapsed := (now - startTimeRef st)%num in
    if (elapsed >=? duration st)%num then (handleStop st, false)
    else (setCurrentTime elapsed st, true).

(** ** Audio upload *)

(** [e.target.files?.[0]] of the audio input: the file's name, and what
    [audioCtx.decodeAudioData] makes of its bytes. *)
Record AudioFile : Type := mkAudioFile {
  af_name : string;
  af_decoded : res AudioBuffer
}.

Definition handleFileUpload (file : option AudioFile) (st : State)
  : State * list effect :=
  match file with
  | None => (st, [])
  | Some f =>
      let st1 := handleStop st in
      match af_decoded f with
      | Ok decodedBuffer =>
          ({| audioBuffer := Some decodedBuffer;
              fileName := Some (af_name f);
              isPlaying := isPlaying st1; currentTime := currentTime st1;
              duration := buf_duration decodedBuffer;
              cues := [];
              sourceNodeRef := sourceNodeRef st1;
              startTimeRef := startTimeRef st1;
              pauseTimeRef := pauseTimeRef st1 |}, [])
      | Throw _ =>
          (st1, [ConsoleError "Error decoding audio";
                 Alert "Failed to decode audio file."])
      end
  end.

(** ** Cue import *)

Section CueImport.

(** The successive results of [crypto.randomUUID()]. *)
Variable randomUUID : nat -> string.

(** The callback of [data.cues.map]; [n] counts the identifiers drawn so
    far. *)
Definition normalize (c : jsval) (n : nat) : res (Cue * nat) :=
  let? c_id := get c "id" in
  let (new_id, n') :=
    if truthy c_id then (c_id, n) else (VStr (randomUUID n), S n) in
  let? c_time := get c "time" in
  let? t := Number c_time in
  let? c_label := get c "label" in
  let? c_color := get c "color" in
  let? c_row := get c "row" in
  Ok ({| id := new_id;
         time := if num_truthy t then t else Fin 0;
         label := js_or c_label (VStr "Imported Cue");
         color := js_or c_color (VStr "#ef4444");
         row := match c_row with VNum r => r | _ => Fin 0 end |}, n').

Fixpoint map_normalize (l : list jsval) (n : nat) : res (list Cue) :=
  match l with
  | [] => Ok []
  | c :: rest =>
      let? cn := normalize c n in
      let? cs := map_normalize rest (snd cn) in
      Ok (fst cn :: cs)
  end.

(** The body of the [try]: [None] stands for the [else] branch. *)
Definition import_cues (parsed : res jsval) : res (option (list Cue)) :=
  let? data := parsed in
  let? data_cues := get data "cues" in
  match data_cues with
  | VArr l =>
      let? importedCues := map_normalize l 0 in
      Ok (Some importedCues)
  | _ => Ok None
  end.

(** [file] is [e.target.files?.[0]] of the JSON input, given by what
    [JSON.parse] makes of its text. *)
Definition handleCueImport (file : option (res jsval)) (st : State)
  : State * list effect :=
  match file with
  | None => (st, [])
  | Some parsed =>
      match import_cues parsed with
      | Ok (Some importedCues) => (setCues importedCues st, [])
      | Ok None => (st, [Alert "Invalid JSON format: missing 'cues' array."])
      | Throw _ =>
          (st, [ConsoleError "Error parsing JSON";
                Alert "Failed to parse JSON file."])
      end
  end.

End CueImport.

(** ** Cue management *)

Definition decimal (n : nat) : string :=
  DecimalString.NilEmpty.string_of_uint (Nat.to_uint n).

Definition handleAddCue (t : num) (uuid : string) (st : State) : State :=
  let newCue :=
    {| id := VStr uuid;
       time := t;
       label := VStr ("Cue " ++ decimal (List.length (cues st) + 1))%string;
       color := VStr "#ef4444";
       row := Fin 0 |} in
  setCues (cues st ++ [newCue]) st.

Definition handleUpdateCue (i : jsval) (updates : CueUpdate) (st : State)
  : State :=
  setCues (map (fun c => if strict_eq (id c) i then merge c updates else c)
               (cues st)) st.

Definition handleDeleteCue (i : jsval) (st : State) : State :=
  setCues (filter (fun c => negb (strict_eq (id c) i)) (cues st)) st.

(** ** Export *)

Local Open Scope string_scope.

Definition cue_value (c : Cue) : jsval :=
  VObj [("id", id c); ("time", VNum (time c)); ("label", label c);
        ("color", color c); ("row", VNum (row c))].

(** The object handed to [JSON.stringify]; [now] is
    [new Date().toISOString()]. *)
Definition export_data (now : string) (st : State) : jsval :=
  VObj [("projectName",
         match fileName st with Some s => VStr s | None => VNull end);
        ("duration", VNum (duration st));
        ("cues", VArr (map cue_value (cues st)));
        ("exportDate", VStr now)].

Definition download_name (st : State) : string :=
  match fileName st with
  | Some s => if String.eqb s "" then "project" else s
  | None => "project"
  end ++ "_cues.json".

(** The download carries the text of [JSON.stringify(data, null, 2)],
    given by the document [JSON.parse] reads back from it. *)
Definition handleExport (now : string) (st : State) : effect :=
  Download (download_name st) (json_of (export_data now st)).

(** ** Vocabulary of the statements *)

(** Export, then import of the exported document. *)
Definition export_then_import (randomUUID : nat -> string) (now : string)
  (st : State) : State * list effect :=
  match handleExport now st with
  | Download _ document => handleCueImport randomUUID (Some (Ok document)) st
  | _ => (st, [])
  end.

(** A field the document hands back: a value that is not empty, which
    [JSON.stringify] then [JSON.parse] give back as it is (a string, a
    finite number, [true], an array or an object of such values). *)
Definition kept (v : jsval) : Prop := truthy v = true /\ json_of v = v.

(** What a cue [c] of the store is after the export and the import, as
    far as the document carries it: a finite time or row comes back, one
    that is not finite comes back as 0; a label, a color and an id that
    are kept come back.  A label, a color or an id that is not kept is
    left open. *)
Definition comes_back (c c' : Cue) : Prop :=
  (is_finite (time c) = true -> (time c' =~ time c)%num) /\
  (is_finite (time c) = false -> time c' = Fin 0) /\
  (is_finite (row c) = true -> row c' = row c) /\
  (is_finite (row c) = false -> row c' = Fin 0) /\
  (kept (label c) -> label c' = label c) /\
  (kept (color c) -> color c' = color c) /\
  (kept (id c) -> id c' = id c).

(** The id [i] is carried by the cue at position [k0] and by no other
    cue of the list. *)
Definition only_at (i : jsval) (k0 : nat) (cs : list Cue) : Prop :=
  (exists c0 : Cue, nth_error cs k0 = Some c0 /\ strict_eq (id c0) i = true) /\
  forall (k : nat) (c : Cue),
    nth_error cs k = Some c -> strict_eq (id c) i = true -> k = k0.

(** The same cue, up to an id that was absent: the same time, label,
    color and row. *)
Definition same_cue (c c' : Cue) : Prop :=
  (time c' =~ time c)%num /\ label c' = label c /\ color c' = color c /\
  row c' = row c /\ (truthy (id c) = true -> id c' = id c).

(** The document has a [cues] array. *)
Definition has_cues_array (parsed : res jsval) : Prop :=
  exists (data : jsval) (l : list jsval),
    parsed = Ok data /\ get data "cues" = Ok (VArr l).

(** No cue of the store carries the id. *)
Definition id_absent (i : jsval) (st : State) : Prop :=
  Forall (fun c => strict_eq (id c) i = false) (cues st).

(** Two updates that set no field in common. *)
Definition disjoint_updates (u v : CueUpdate) : Prop :=
  (u_time u = None \/ u_time v = None) /\
  (u_label u = None \/ u_label v = None) /\
  (u_color u = None \/ u_color v = None) /\
  (u_row u = None \/ u_row v = None).

(** What every imported cue satisfies. *)
Definition well_formed (c : Cue) : Prop :=
  truthy (id c) = true /\ truthy (label c) = true /\
  truthy (color c) = true /\ is_nan (time c) = false /\
  (num_truthy (time c) = true \/ time c = Fin 0).

(** A record of a document that is an object without a usable id, whose
    time converts to a number. *)
Definition lacks_id (c : jsval) : Prop :=
  exists props : list (string * jsval),
    c = VObj props /\ truthy (own_prop props "id") = false /\
    to_string_throws (own_prop props "time") = false.

(** The transport controls, and a sequence of them. *)
Inductive transport_op : Type :=
| PlayPause (ctxTime : num)
| Seek (t ctxTime : num)
| Stop
| Frame (now : num).

Definition transport (op : transport_op) (st : State) : State :=
  match op with
  | PlayPause ctxTime => handlePlayPause ctxTime st
  | Seek t ctxTime => handleSeek t ctxTime st
  | Stop => handleStop st
  | Frame now => fst (updateProgress now st)
  end.

Definition transports (ops : list transport_op) (st : State) : State :=
  fold_left (fun s op => transport op s) ops st.

(** The project: everything in the state but the playback position. *)
Definition same_project (st st' : State) : Prop :=
  audioBuffer st' = audioBuffer st /\ duration st' = duration st /\
  fileName st' = fileName st /\ cues st' = cues st.

End App.

(* ================================================================== *)
(** * [Timeline] of [components/Controls.tsx]: the view-model *)
(* ================================================================== *)

Module Timeline.

Import App.

Definition MIN_ZOOM : num := Fin 10.
Definition MAX_ZOOM : num := Fin 600.
Definition NUM_ROWS : num := Fin 4.

(** The props the handlers read. *)
Record Props : Type := mkProps {
  currentTime : num;
  duration : num
}.

(** [getBoundingClientRect()] *)
Record DOMRect : Type := mkRect {
  left : num;
  top : num;
  width : num;
  height : num
}.

(** [containerRef.current], when the viewport is mounted. *)
Record Container : Type := mkContainer {
  getBoundingClientRect : DOMRect;
  clientWidth : num;
  clientHeight : num
}.

Record MouseEvent : Type := mkMouse {
  clientX : num;
  clientY : num
}.

(** View state and interaction state ([useState] cells). *)
Record State : Type := mkState {
  zoom : num;
  isFollowing : bool;
  viewCenterTime : num;
  draggingCueId : jsval;
  isPanning : bool;
  dragStartX : num;
  dragStartTime : num;
  snapToGrid : bool
}.

Definition initial : State :=
  {| zoom := Fin 100; isFollowing := true; viewCenterTime := Fin 0;
     draggingCueId := VNull; isPanning := false; dragStartX := Fin 0;
     dragStartTime := Fin 0; snapToGrid := true |}.

(** The callbacks a handler invokes on its parent. *)
Inductive callback : Type :=
| onSeek (t : num)
| onUpdateCue (i : jsval) (updates : CueUpdate).

Definition setViewCenterTime (t : num) (st : State) : State :=
  {| zoom := zoom st; isFollowing := isFollowing st; viewCenterTime := t;
     draggingCueId := draggingCueId st; isPanning := isPanning st;
     dragStartX := dragStartX st; dragStartTime := dragStartTime st;
     snapToGrid := snapToGrid st |}.

Definition setDraggingCueId (i : jsval) (st : State) : State :=
  {| zoom := zoom st; isFollowing := isFollowing st;
     viewCenterTime := viewCenterTime st;
     draggingCueId := i; isPanning := isPanning st;
     dragStartX := dragStartX st; dragStartTime := dragStartTime st;
     snapToGrid := snapToGrid st |}.

Definition setIsPanning (b : bool) (st : State) : State :=
  {| zoom := zoom st; isFollowing := isFollowing st;
     viewCenterTime := viewCenterTime st;
     draggingCueId := draggingCueId st; isPanning := b;
     dragStartX := dragStartX st; dragStartTime := dragStartTime st;
     snapToGrid := snapToGrid st |}.

Definition setZoom (z : num) (st : State) : State :=
  {| zoom := z; isFollowing := isFollowing st;
     viewCenterTime := viewCenterTime st;
     draggingCueId := draggingCueId st; isPanning := isPanning st;
     dragStartX := dragStartX st; dragStartTime := dragStartTime st;
     snapToGrid := snapToGrid st |}.

(** The effect that keeps the view on the playhead. *)
Definition syncFollow (p : Props) (st : State) : State :=
  if isFollowing st then setViewCenterTime (currentTime p) st else st.

(** ** The time-space mapping, as the handlers spell it out *)

(** [const startT = viewCenterTime - (halfWindow / zoom)] with
    [halfWindow = w / 2]. *)
Definition startT (st : State) (w : num) : num :=
  (viewCenterTime st - (w / Fin 2) / zoom st)%num.

(** [(mouseX / zoom) + startT] *)
Definition xToTime (st : State) (w mouseX : num) : num :=
  (mouseX / zoom st + startT st w)%num.

(** [(time - startT) * zoom] *)
Definition timeToX (st : State) (w t : num) : num :=
  ((t - startT st w) * zoom st)%num.

(** [Math.max(0, Math.min(duration, t))] *)
Definition clamp (d t : num) : num := Math_max (Fin 0) (Math_min d t).

Definition getCueScreenX (container : option Container) (st : State)
  (t : num) : num :=
  match container with
  | None => Fin (-1000)
  | Some c => timeToX st (clientWidth c) t
  end.

Definition getPlayheadX (container : option Container) (p : Props)
  (st : State) : num :=
  getCueScreenX container st (currentTime p).

(** [const endT = centerT + (halfWindow / zoom)] of the drawing effect. *)
Definition endT (st : State) (w : num) : num :=
  (viewCenterTime st + (w / Fin 2) / zoom st)%num.

(** The spacing of the time ruler, in seconds:
    [let gridInterval = 1; if (zoom > 200) gridInterval = 0.5;
     if (zoom < 50) gridInterval = 5; if (zoom < 20) gridInterval = 10]. *)
Definition gridInterval (z : num) : num :=
  let g1 := Fin 1 in
  let g2 := if (z >? Fin 200)%num then Fin (1 # 2) else g1 in
  let g3 := if (z <? Fin 50)%num then Fin 5 else g2 in
  if (z <? Fin 20)%num then Fin 10 else g3.

(** [containerRef.current?.clientWidth || dflt] *)
Definition clientWidth_or (container : option Container) (dflt : num) : num :=
  match container with
  | Some c => if num_truthy (clientWidth c) then clientWidth c else dflt
  | None => dflt
  end.

(** [containerRef.current?.clientHeight || 300] *)
Definition clientHeight_or (container : option Container) (dflt : num)
  : num :=
  match container with
  | Some c => if num_truthy (clientHeight c) then clientHeight c else dflt
  | None => dflt
  end.

(** The [opacity] of the playhead. *)
Definition playheadOpacity (container : option Container) (p : Props)
  (st : State) : num :=
  if (getPlayheadX container p st >=? Fin 0)%num
     && (getPlayheadX container p st <=? clientWidth_or container (Fin 0))%num
  then Fin 1 else Fin 0.

(** The test that leaves a cue marker out of the cues layer. *)
Definition cueCulled (container : option Container) (st : State) (c : Cue)
  : bool :=
  let cueX := getCueScreenX container st (time c) in
  (cueX <? Fin (-300))%num
  || (cueX >? clientWidth_or container (Fin 2000) + Fin 300)%num.

(** [top] and [height] of a cue marker: [cue.row * rowHeight] and
    [rowHeight], for [rowHeight = height / NUM_ROWS]. *)
Definition markerHeight (container : option Container) : num :=
  (clientHeight_or container (Fin 300) / NUM_ROWS)%num.

Definition cueY (container : option Container) (c : Cue) : num :=
  (row c * markerHeight container)%num.

(** The toolbar: the follow button, the snap button, the zoom slider. *)
Definition toggleFollow (st : State) : State :=
  {| zoom := zoom st; isFollowing := negb (isFollowing st);
     viewCenterTime := viewCenterTime st;
     draggingCueId := draggingCueId st; isPanning := isPanning st;
     dragStartX := dragStartX st; dragStartTime := dragStartTime st;
     snapToGrid := snapToGrid st |}.

Definition toggleSnap (st : State) : State :=
  {| zoom := zoom st; isFollowing := isFollowing st;
     viewCenterTime := viewCenterTime st;
     draggingCueId := draggingCueId st; isPanning := isPanning st;
     dragStartX := dragStartX st; dragStartTime := dragStartTime st;
     snapToGrid := negb (snapToGrid st) |}.

(** ** The waveform *)

(** The length [new Float32Array(n)] gives the array: [n] truncated, a
    [RangeError] ([None]) when that is negative or infinite, and 0 for
    [NaN].  The engine's own limit on the size of an array is not
    represented. *)
Definition typed_array_length (n : num) : option nat :=
  match n with
  | Fin q => if Qle_bool q (- (1)) then None else Some (Z.to_nat (Qfloor q))
  | NaN => Some 0%nat
  | _ => None
  end.

(** [for (let j = 0; j < blockSize; j += 10) sum += Math.abs(channelData[start + j])]:
    the loop runs for [j = 10 k], [k] below [ceil(blockSize / 10)]; a read
    past the end of the channel gives [undefined], whose absolute value
    is [NaN]. *)
Definition block_sum (channelData : list num) (start blockSize : nat) : num :=
  fold_left
    (fun sum k => (sum + Math_abs (nth (start + 10 * k) channelData NaN))%num)
    (seq 0 ((blockSize + 9) / 10)) (Fin 0).

(** The first loop: [peaks[i] = sum / (blockSize / 10)]. *)
Definition raw_peaks (channelData : list num) (totalSamples blockSize : nat)
  : list num :=
  map (fun i =>
         (block_sum channelData (i * blockSize) blockSize
          / (of_nat blockSize / Fin 10))%num)
      (seq 0 totalSamples).

(** The second loop: [if (peaks[i] > max) max = peaks[i]], from [max = 0]. *)
Definition peak_max (peaks : list num) : num :=
  fold_left (fun mx pk => if (pk >? mx)%num then pk else mx) peaks (Fin 0).

(** The memoised [waveformPeaks]; [None] stands for the [RangeError] of
    the array constructor.  With [totalSamples] samples to fill,
    [Math.floor(channelData.length / totalSamples)] is the quotient of the
    two lengths; with none, no loop runs.  The rounding of the values
    stored in the [Float32Array] is not represented. *)
Definition waveformPeaks (audioBuffer : option AudioBuffer) (duration : num)
  : option (list num) :=
  match audioBuffer with
  | None => Some []
  | Some b =>
      let samplesPerSecond := Fin 200 in
      let totalSamples := Math_ceil (duration * samplesPerSecond) in
      let channelData := buf_channel0 b in
      match typed_array_length totalSamples with
      | None => None
      | Some n =>
          let blockSize := (List.length channelData / n)%nat in
          let peaks := raw_peaks channelData n blockSize in
          let max := peak_max peaks in
          let multiplier :=
            (Fin 1 / (if num_truthy max then max else Fin 1))%num in
          Some (map (fun pk => (pk * multiplier)%num) peaks)
      end
  end.

(** ** Mouse handlers *)

Definition handleMouseDown (e : MouseEvent) (st : State) : State :=
  {| zoom := zoom st; isFollowing := false;
     viewCenterTime := viewCenterTime st;
     draggingCueId := draggingCueId st; isPanning := true;
     dragStartX := clientX e; dragStartTime := viewCenterTime st;
     snapToGrid := snapToGrid st |}.

(** [onMouseDown] of a cue marker; the event does not reach the
    background. *)
Definition handleCueMouseDown (c : Cue) (st : State) : State :=
  setDraggingCueId (id c) st.

(** The time and the row a drag gives the cue under the pointer. *)
Definition dragTime (e : MouseEvent) (rect : DOMRect) (p : Props)
  (st : State) : num :=
  let mouseX := (clientX e - left rect)%num in
  let newTime := clamp (duration p) (xToTime st (width rect) mouseX) in
  if snapToGrid st then (Math_round (newTime * Fin 10) / Fin 10)%num
  else newTime.

Definition dragRow (e : MouseEvent) (rect : DOMRect) : num :=
  let mouseY := (clientY e - top rect)%num in
  let rowHeight := (height rect / NUM_ROWS)%num in
  let newRow := Math_floor (mouseY / rowHeight) in
  Math_max (Fin 0) (Math_min (NUM_ROWS - Fin 1) newRow).

Definition timeRow (t r : num) : CueUpdate :=
  {| u_time := Some t; u_label := None; u_color := None; u_row := Some r |}.

Definition handleGlobalMouseMove (e : MouseEvent)
  (container : option Container) (p : Props) (st : State)
  : State * list callback :=
  if truthy (draggingCueId st) then
    match container with
    | None => (st, [])
    | Some c =>
        let rect := getBoundingClientRect c in
        (st, [onUpdateCue (draggingCueId st)
                (timeRow (dragTime e rect p st) (dragRow e rect))])
    end
  else if isPanning st then
    let deltaPixels := (clientX e - dragStartX st)%num in
    let deltaTime := (deltaPixels / zoom st)%num in
    let newCenter := clamp (duration p) (dragStartTime st - deltaTime) in
    (setViewCenterTime newCenter st, [])
  else (st, []).

Definition handleGlobalMouseUp (e : MouseEvent)
  (container : option Container) (p : Props) (st : State)
  : State * list callback :=
  let st1 :=
    if truthy (draggingCueId st) then setDraggingCueId VNull st else st in
  if isPanning st then
    let st2 := setIsPanning false st1 in
    if (Math_abs (clientX e - dragStartX st) <? Fin 5)%num then
      match container with
      | Some c =>
          let rect := getBoundingClientRect c in
          let mouseX := (clientX e - left rect)%num in
          let clickTime := xToTime st (width rect) mouseX in
          (st2, [onSeek (clamp (duration p) clickTime)])
      | None => (st2, [])
      end
    else (st2, [])
  else (st1, []).

(** ** Gestures: the handlers run in sequence *)

Inductive event : Type :=
| MouseDown (e : MouseEvent)
| CueMouseDown (c : Cue)
| MouseMove (e : MouseEvent)
| MouseUp (e : MouseEvent).

Definition step (container : option Container) (p : Props) (ev : event)
  (st : State) : State * list callback :=
  match ev with
  | MouseDown e => (handleMouseDown e st, [])
  | CueMouseDown c => (handleCueMouseDown c st, [])
  | MouseMove e => handleGlobalMouseMove e container p st
  | MouseUp e => handleGlobalMouseUp e container p st
  end.

Fixpoint run (container : option Container) (p : Props) (evs : list event)
  (st : State) : State * list callback :=
  match evs with
  | [] => (st, [])
  | ev :: rest =>
      let (st1, out1) := step container p ev st in
      let (st2, out2) := run container p rest st1 in
      (st2, out1 ++ out2)
  end.

Definition is_seek (c : callback) : bool :=
  match c with onSeek _ => true | _ => false end.

Definition seeks (out : list callback) : list callback := filter is_seek out.

(** The parent's reaction to a callback: [onSeek={handleSeek}],
    [onUpdateCue={handleUpdateCue}]; [ctxTime] is [audioCtx.currentTime]. *)
Definition dispatch (ctxTime : num) (c : callback) (app : App.State)
  : App.State :=
  match c with
  | onSeek t => handleSeek t ctxTime app
  | onUpdateCue i u => handleUpdateCue i u app
  end.

(** ** Vocabulary of the statements *)

(** [0 <= t <= d], as the program would test it. *)
Definition within (d t : num) : Prop :=
  (Fin 0 <=? t)%num = true /\ (t <=? d)%num = true.

(** A finite number from [lo] to [hi]. *)
Definition between (lo hi : Q) (x : num) : Prop :=
  exists q : Q, x = Fin q /\ lo <= q /\ q <= hi.

(** Every sample of the channel is a finite number. *)
Definition finite_samples (channelData : list num) : Prop :=
  Forall (fun x => is_finite x = true) channelData.

(** Every sample of the channel is zero. *)
Definition silent (channelData : list num) : Prop :=
  Forall (fun x => exists q : Q, x = Fin q /\ q == 0) channelData.

End Timeline.

(* ================================================================== *)
(** * [CueList.tsx]: the cue list *)
(* ================================================================== *)

Module CueList.

Import App.

(** [Array.prototype.sort(compare)]: a stable sort; [a] goes after [b]
    when [compare(a, b) > 0], and a [NaN] result counts as zero.  A stable
    sort has one result for a consistent comparator, which the insertion
    below computes; for an inconsistent one (a [NaN] among the keys) the
    engine is free to pick the order, and the model picks this one. *)
Section Sort.
Variable A : Type.
Variable compare : A -> A -> num.

Fixpoint insert (x : A) (l : list A) : list A :=
  match l with
  | [] => [x]
  | y :: rest =>
      if (compare x y >? Fin 0)%num then y :: insert x rest
      else x :: l
  end.

Fixpoint Array_sort (l : list A) : list A :=
  match l with
  | [] => []
  | x :: rest => insert x (Array_sort rest)
  end.
End Sort.
Arguments insert {A} compare x l.
Arguments Array_sort {A} compare l.

(** [Array.prototype.findIndex]; [None] stands for [-1]. *)
Fixpoint findIndex {A : Type} (f : A -> bool) (l : list A) : option nat :=
  match l with
  | [] => None
  | x :: rest =>
      if f x then Some 0%nat
      else match findIndex f rest with
           | Some i => Some (S i)
           | None => None
           end
  end.

(** [Array.prototype.map] with the index passed to the callback. *)
Fixpoint mapi_from {A B : Type} (f : A -> nat -> B) (i : nat) (l : list A)
  : list B :=
  match l with
  | [] => []
  | x :: rest => f x i :: mapi_from f (S i) rest
  end.

Definition mapi {A B : Type} (f : A -> nat -> B) (l : list A) : list B :=
  mapi_from f 0 l.

(** The comparator [(a, b) => a.time - b.time]. *)
Definition by_time (a b : Cue) : num := (time a - time b)%num.

Definition sortedCues (cues : list Cue) : list Cue :=
  Array_sort by_time cues.

Definition nextIndex (cues : list Cue) (currentTime : num) : option nat :=
  findIndex (fun c => (time c >? currentTime)%num) (sortedCues cues).

Definition scrollIndex (cues : list Cue) (currentTime : num) : option nat :=
  match nextIndex cues currentTime with
  | None => match List.length (sortedCues cues) with
            | O => None
            | S n => Some n
            end
  | Some i => Some i
  end.

Definition nextCue (cues : list Cue) (currentTime : num) : option Cue :=
  match nextIndex cues currentTime with
  | Some i => nth_error (sortedCues cues) i
  | None => None
  end.

(** What the body of [sortedCues.map((cue, idx) => ...)] computes for a
    table row.  The callback runs on the positions of [sortedCues], so
    that [sortedCues[idx - 1]] exists for every [idx] but the first. *)
Record RowView : Type := mkRow {
  cue : Cue;
  diff : num;
  isPast : bool;
  isNow : bool;
  prevTime : num;
  windowDuration : num;
  progressPercent : num;
  isActiveSegment : bool
}.

Definition row_view (currentTime : num) (sorted : list Cue) (c : Cue)
  (idx : nat) : RowView :=
  let diff := (time c - currentTime)%num in
  let isPast := (diff <? Fin (-(1 # 2)))%num in
  let isNow := negb isPast && (diff <=? Fin 0)%num in
  let prevTime :=
    match idx with
    | O => Fin 0
    | S i => match nth_error sorted i with
             | Some prev => time prev
             | None => NaN
             end
    end in
  let windowDuration := (time c - prevTime)%num in
  let inWindow :=
    (currentTime >=? prevTime)%num && (currentTime <=? time c)%num in
  let progressPercent :=
    if inWindow then
      if (windowDuration >? Fin 0)%num
      then ((currentTime - prevTime) / windowDuration * Fin 100)%num
      else Fin 100
    else if (currentTime >? time c)%num then Fin 100
    else Fin 0 in
  {| cue := c; diff := diff; isPast := isPast; isNow := isNow;
     prevTime := prevTime; windowDuration := windowDuration;
     progressPercent := progressPercent; isActiveSegment := inWindow |}.

Definition rows (cues : list Cue) (currentTime : num) : list RowView :=
  let sorted := sortedCues cues in
  mapi (row_view currentTime sorted) sorted.

(** ** Vocabulary of the statements *)

(** No cue time is [NaN]: the comparator of the sort is then consistent. *)
Definition comparable (cues : list Cue) : Prop :=
  Forall (fun c => is_nan (time c) = false) cues.

(** Ascending by time. *)
Definition ascending (cues : list Cue) : Prop :=
  Sorted (fun a b => (time a <=? time b)%num = true) cues.

End CueList.

(* ================================================================== *)
(** * Facts about numbers *)
(* ================================================================== *)

Module NumFacts.

Lemma Qlt_bool_iff (a b : Q) : Qlt_bool a b = true <-> a < b.
Proof.
  unfold Qlt_bool. rewrite negb_true_iff.
  split; intro H.
  - apply Qnot_le_lt. intro Hle. apply Qle_bool_iff in Hle. congruence.
  - destruct (Qle_bool b a) eqn:E; [|reflexivity].
    apply Qle_bool_iff in E. exfalso. apply (Qlt_not_le _ _ H E).
Qed.

Lemma Qlt_bool_false_iff (a b : Q) : Qlt_bool a b = false <-> b <= a.
Proof.
  unfold Qlt_bool. rewrite negb_false_iff. apply Qle_bool_iff.
Qed.

Lemma Qle_bool_false_iff (a b : Q) : Qle_bool a b = false <-> b < a.
Proof.
  rewrite <- Qlt_bool_iff. unfold Qlt_bool.
  destruct (Qle_bool a b); simpl; intuition congruence.
Qed.

Lemma is_zero_false (q : Q) : ~ q == 0 -> is_zero q = false.
Proof.
  intro H. unfold is_zero. destruct (Qeq_bool q 0) eqn:E; [|reflexivity].
  apply Qeq_bool_iff in E. contradiction.
Qed.

Lemma is_zero_true (q : Q) : q == 0 -> is_zero q = true.
Proof. intro H. unfold is_zero. apply Qeq_bool_iff. exact H. Qed.

Lemma ndiv_fin (x y : Q) : ~ y == 0 -> (Fin x / Fin y)%num = Fin (x / y).
Proof. intro H. simpl. rewrite (is_zero_false _ H). reflexivity. Qed.

Lemma nsub_fin (x y : Q) : (Fin x - Fin y)%num = Fin (x + - y).
Proof. reflexivity. Qed.

#[global] Instance num_eq_Equivalence : Equivalence num_eq.
Proof.
  split.
  - intros [q| | |]; simpl; auto. reflexivity.
  - intros [x| | |] [y| | |]; simpl; auto. intro H. symmetry. exact H.
  - intros [x| | |] [y| | |] [z| | |]; simpl; auto; try tauto.
    intros H1 H2. rewrite H1. exact H2.
Qed.

(** [Math.min] and [Math.max] on finite numbers. *)
Lemma Math_min_fin (a b : Q) :
  Math_min (Fin a) (Fin b) = Fin (if Qle_bool a b then a else b).
Proof. simpl. destruct (Qle_bool a b); reflexivity. Qed.

Lemma Math_max_fin (a b : Q) :
  Math_max (Fin a) (Fin b) = Fin (if Qle_bool a b then b else a).
Proof. simpl. destruct (Qle_bool a b); reflexivity. Qed.

Lemma Math_clamp_fin (d t : Q) :
  Math_max (Fin 0) (Math_min (Fin d) (Fin t)) = Fin (Qclamp d t).
Proof. rewrite Math_min_fin, Math_max_fin. reflexivity. Qed.

Lemma Qclamp_range (d t : Q) : 0 <= d -> 0 <= Qclamp d t <= d.
Proof.
  intro Hd. unfold Qclamp.
  destruct (Qle_bool d t) eqn:E1.
  - apply Qle_bool_iff in E1.
    destruct (Qle_bool 0 d) eqn:E2.
    + split; [exact Hd | apply Qle_refl].
    + split; [apply Qle_refl | exact Hd].
  - apply Qle_bool_false_iff in E1.
    destruct (Qle_bool 0 t) eqn:E2.
    + apply Qle_bool_iff in E2. split; [exact E2 | apply Qlt_le_weak, E1].
    + split; [apply Qle_refl | exact Hd].
Qed.

Lemma Qclamp_inside (d t : Q) : 0 <= t -> t <= d -> Qclamp d t == t.
Proof.
  intros H0 Hd. unfold Qclamp.
  destruct (Qle_bool d t) eqn:E1.
  - apply Qle_bool_iff in E1.
    assert (Hdt : d == t) by (apply Qle_antisym; assumption).
    destruct (Qle_bool 0 d) eqn:E2; [exact Hdt|].
    apply Qle_bool_false_iff in E2. lra.
  - destruct (Qle_bool 0 t) eqn:E2; [reflexivity|].
    apply Qle_bool_false_iff in E2. lra.
Qed.

Lemma Qclamp_below (d t : Q) : 0 <= d -> t <= 0 -> Qclamp d t == 0.
Proof.
  intros Hd H0. unfold Qclamp.
  destruct (Qle_bool d t) eqn:E1.
  - apply Qle_bool_iff in E1.
    destruct (Qle_bool 0 d) eqn:E2; [lra | reflexivity].
  - destruct (Qle_bool 0 t) eqn:E2; [|reflexivity].
    apply Qle_bool_iff in E2. lra.
Qed.

Lemma Qclamp_above (d t : Q) : 0 <= d -> d <= t -> Qclamp d t == d.
Proof.
  intros Hd Ht. unfold Qclamp.
  destruct (Qle_bool d t) eqn:E1.
  - destruct (Qle_bool 0 d) eqn:E2; [reflexivity|].
    apply Qle_bool_false_iff in E2. lra.
  - apply Qle_bool_false_iff in E1.
    destruct (Qle_bool 0 t) eqn:E2; lra.
Qed.

(** The nearest integer, as [Math.round] takes it. *)
Lemma Qround_near (q : Q) :
  let n := Qfloor (q + (1 # 2)) in
  inject_Z n - (1 # 2) <= q /\ q < inject_Z n + (1 # 2).
Proof.
  intro n. subst n.
  pose proof (Qfloor_le (q + (1 # 2))) as Hlo.
  pose proof (Qlt_floor (q + (1 # 2))) as Hhi.
  rewrite inject_Z_plus in Hhi.
  change (inject_Z 1) with 1 in Hhi.
  split; lra.
Qed.

(** A number that is not [NaN] compares with every other such number. *)
Lemma nle_total (a b : num) :
  is_nan a = false -> is_nan b = false -> nle a b = true \/ nle b a = true.
Proof.
  destruct a as [x| | |], b as [y| | |]; simpl; intros; auto; try discriminate.
  destruct (Qle_bool x y) eqn:E; [left; reflexivity|right].
  apply Qle_bool_false_iff in E. apply Qle_bool_iff. apply Qlt_le_weak, E.
Qed.

Lemma nle_trans (a b c : num) :
  nle a b = true -> nle b c = true -> nle a c = true.
Proof.
  destruct a as [x| | |], b as [y| | |], c as [z| | |]; simpl;
    intros H1 H2; auto; try discriminate.
  apply Qle_bool_iff in H1, H2. apply Qle_bool_iff.
  eapply Qle_trans; eassumption.
Qed.

Lemma nlt_nle (a b : num) :
  is_nan a = false -> is_nan b = false -> nlt a b = negb (nle b a).
Proof.
  destruct a as [x| | |], b as [y| | |]; simpl; intros; auto; discriminate.
Qed.

(** The comparator [a - b] is positive exactly when [b < a]. *)
Lemma compare_sub_pos (a b : num) :
  is_nan a = false -> is_nan b = false ->
  (a - b >? Fin 0)%num = nlt b a.
Proof.
  destruct a as [x| | |], b as [y| | |]; simpl; intros; auto; try discriminate.
  unfold ngt, nsub. simpl.
  destruct (Qlt_bool y x) eqn:E.
  - apply Qlt_bool_iff in E. apply Qlt_bool_iff. lra.
  - apply Qlt_bool_false_iff in E. apply Qlt_bool_false_iff. lra.
Qed.

End NumFacts.
Import NumFacts.

(* ================================================================== *)
(** * The time-space mapping and the pointer gestures *)
(* ================================================================== *)

Module TimelineFacts.

Import App Timeline.

(** C1.  With a positive zoom, any view centre and any viewport width,
    the pixel [getCueScreenX] gives a time [t] is sent back to [t] by the
    expression [x / zoom + startT] of the click and drag handlers, the
    arithmetic being exact. *)
Theorem mapper_inverse (st : State) (cont : Container) (t z c w : Q) :
  zoom st = Fin z -> viewCenterTime st = Fin c ->
  clientWidth cont = Fin w -> 0 < z ->
  (xToTime st (Fin w) (getCueScreenX (Some cont) st (Fin t)) =~ Fin t)%num.
Proof.
  intros Hz Hc Hw Hpos.
  assert (Hnz : ~ z == 0) by (intro E; rewrite E in Hpos; discriminate).
  unfold getCueScreenX, xToTime, timeToX, startT.
  rewrite Hz, Hc, Hw.
  replace (Fin w / Fin 2)%num with (Fin (w / 2)) by reflexivity.
  rewrite (ndiv_fin _ _ Hnz). rewrite nsub_fin.
  change (Fin t - Fin (c + - (w / 2 / z)))%num
    with (Fin (t + - (c + - (w / 2 / z)))).
  change (Fin (t + - (c + - (w / 2 / z))) * Fin z)%num
    with (Fin ((t + - (c + - (w / 2 / z))) * z)).
  rewrite (ndiv_fin _ _ Hnz). simpl. field. exact Hnz.
Qed.

Lemma mapper_inverse_witness :
  (xToTime initial (Fin 800)
     (getCueScreenX (Some (mkContainer (mkRect (Fin 0) (Fin 0) (Fin 800)
                                          (Fin 400)) (Fin 800) (Fin 400)))
        initial (Fin 3)) =~ Fin 3)%num.
Proof.
  apply (mapper_inverse initial _ 3 100 0 800); reflexivity.
Defined.

(** ** Runs of events *)

Lemma run_app (container : option Container) (p : Props)
  (a b : list event) (st : State) :
  run container p (a ++ b) st =
  (fst (run container p b (fst (run container p a st))),
   snd (run container p a st)
   ++ snd (run container p b (fst (run container p a st)))).
Proof.
  revert st. induction a as [|ev a IH]; intro st; simpl.
  - destruct (run container p b st); reflexivity.
  - destruct (step container p ev st) as [st1 out1]. rewrite IH.
    destruct (run container p a st1) as [st2 out2]. simpl.
    rewrite app_assoc. reflexivity.
Qed.

(** A pointer move leaves the gesture's bookkeeping alone and seeks
    nothing. *)
Lemma move_frame (e : MouseEvent) (container : option Container)
  (p : Props) (st : State) :
  let r := handleGlobalMouseMove e container p st in
  isPanning (fst r) = isPanning st /\
  dragStartX (fst r) = dragStartX st /\
  dragStartTime (fst r) = dragStartTime st /\
  draggingCueId (fst r) = draggingCueId st /\
  zoom (fst r) = zoom st /\
  isFollowing (fst r) = isFollowing st /\
  seeks (snd r) = [].
Proof.
  unfold handleGlobalMouseMove.
  destruct (truthy (draggingCueId st)).
  - destruct container; simpl; repeat split; reflexivity.
  - destruct (isPanning st) eqn:E; simpl; repeat split; auto.
Qed.

Lemma moves_frame (container : option Container) (p : Props)
  (moves : list MouseEvent) (st : State) :
  let r := run container p (map MouseMove moves) st in
  isPanning (fst r) = isPanning st /\
  dragStartX (fst r) = dragStartX st /\
  dragStartTime (fst r) = dragStartTime st /\
  draggingCueId (fst r) = draggingCueId st /\
  zoom (fst r) = zoom st /\
  isFollowing (fst r) = isFollowing st /\
  seeks (snd r) = [].
Proof.
  revert st. induction moves as [|e moves IH]; intro st; simpl.
  - repeat split; reflexivity.
  - pose proof (move_frame e container p st) as Hm. simpl in Hm.
    destruct (handleGlobalMouseMove e container p st) as [st1 out1].
    specialize (IH st1). simpl in IH.
    destruct (run container p (map MouseMove moves) st1) as [st2 out2].
    simpl in *.
    destruct Hm as (H1 & H2 & H3 & H4 & H5 & H6 & H7).
    destruct IH as (I1 & I2 & I3 & I4 & I5 & I6 & I7).
    repeat split; try congruence.
    unfold seeks in *. rewrite filter_app, H7, I7. reflexivity.
Qed.

Lemma Math_abs_lt_fin (a b k : Q) :
  (Math_abs (Fin a - Fin b) <? Fin k)%num = true <-> Qabs (a - b) < k.
Proof.
  simpl. rewrite Qlt_bool_iff. reflexivity.
Qed.

(** ** Panning *)

Lemma clamp_within (d v : Q) : 0 <= d -> within (Fin d) (clamp (Fin d) (Fin v)).
Proof.
  intro Hd. unfold clamp. rewrite Math_clamp_fin.
  destruct (Qclamp_range d v Hd) as [H1 H2].
  split; simpl; apply Qle_bool_iff; assumption.
Qed.

(** [Qclamp] clamps. *)
Lemma Qclamp_clamped (d raw raw' : Q) :
  0 <= d -> raw' == raw -> clamped_to d raw (Qclamp d raw').
Proof.
  intros Hd E. unfold clamped_to.
  split; [apply Qclamp_range; exact Hd|].
  split; [|split].
  - intros [H0 H1]. rewrite <- E in H0, H1.
    rewrite (Qclamp_inside d raw' H0 H1). exact E.
  - intro H. rewrite <- E in H. apply Qclamp_below; assumption.
  - intro H. rewrite <- E in H. apply Qclamp_above; assumption.
Qed.

(** A pan move, spelled out. *)
Lemma pan_move (e : MouseEvent) (container : option Container) (p : Props)
  (st : State) :
  truthy (draggingCueId st) = false -> isPanning st = true ->
  handleGlobalMouseMove e container p st =
  (setViewCenterTime
     (clamp (duration p)
        (dragStartTime st - (clientX e - dragStartX st) / zoom st)%num) st,
   []).
Proof.
  intros Hd Hp. unfold handleGlobalMouseMove. rewrite Hd, Hp. reflexivity.
Qed.

(** The same on finite numbers. *)
Lemma pan_move_fin (e : MouseEvent) (container : option Container)
  (p : Props) (st : State) (z d s0 sx x : Q) :
  truthy (draggingCueId st) = false -> isPanning st = true ->
  zoom st = Fin z -> 0 < z -> duration p = Fin d ->
  dragStartTime st = Fin s0 -> dragStartX st = Fin sx -> clientX e = Fin x ->
  handleGlobalMouseMove e container p st =
  (setViewCenterTime (Fin (Qclamp d (s0 - (x - sx) / z))) st, []).
Proof.
  intros Hdrag Hpan Hz Hpos Hd Hs0 Hsx Hx.
  assert (Hnz : ~ z == 0) by (intro E; rewrite E in Hpos; discriminate).
  rewrite (pan_move e container p st Hdrag Hpan).
  rewrite Hz, Hd, Hs0, Hsx, Hx.
  rewrite nsub_fin, (ndiv_fin _ _ Hnz), nsub_fin.
  unfold clamp. rewrite Math_clamp_fin. reflexivity.
Qed.

(** After the pan moves at [xs] the view centre is the clamp for the last
    of them; without a move it is where it was. *)
Lemma pan_moves_centre (container : option Container) (p : Props)
  (z d s0 sx : Q) :
  duration p = Fin d -> 0 < z ->
  forall (moves : list MouseEvent) (xs : list Q) (st : State) (c0 : Q),
    truthy (draggingCueId st) = false -> isPanning st = true ->
    zoom st = Fin z -> dragStartTime st = Fin s0 -> dragStartX st = Fin sx ->
    viewCenterTime st = Fin c0 ->
    map clientX moves = map Fin xs ->
    run container p (map MouseMove moves) st =
    (setViewCenterTime
       (Fin match xs with
            | [] => c0
            | _ :: _ => Qclamp d (s0 - (last xs 0 - sx) / z)
            end) st, []).
Proof.
  intros Hd Hpos. induction moves as [|e moves IH];
    intros xs st c0 Hdrag Hpan Hz Hs0 Hsx Hc Hxs.
  - destruct xs; [|discriminate]. simpl. rewrite <- Hc.
    destruct st; reflexivity.
  - destruct xs as [|x xs]; [discriminate|].
    simpl in Hxs. injection Hxs as Hx Hxs.
    cbn [map run step].
    rewrite (pan_move_fin e container p st z d s0 sx x
               Hdrag Hpan Hz Hpos Hd Hs0 Hsx Hx).
    rewrite (IH xs (setViewCenterTime (Fin (Qclamp d (s0 - (x - sx) / z))) st)
               (Qclamp d (s0 - (x - sx) / z))
               Hdrag Hpan Hz Hs0 Hsx eq_refl Hxs).
    destruct xs; reflexivity.
Qed.

(** C5.  A pointer-down on the background turns following off, starts
    the pan and records the start X and the start centre, leaving the view
    centre where it is.  A pan move after it leaves the view centre at
    [startCenterTime - (currentX - startX) / zoom] clamped to
    [[0, duration]], and changes nothing else.  After the pointer-down and
    any pan moves following is off, and the view centre is the clamp for
    the last move: in [[0, duration]] wherever it started; without a move
    it is where it was, so a centre in [[0, duration]] stays there. *)
Theorem pan_invariant :
  (forall (e : MouseEvent) (st : State),
     let st' := handleMouseDown e st in
     isFollowing st' = false /\ isPanning st' = true /\
     dragStartX st' = clientX e /\ dragStartTime st' = viewCenterTime st /\
     viewCenterTime st' = viewCenterTime st /\ zoom st' = zoom st) /\
  (forall (e : MouseEvent) (container : option Container) (p : Props)
          (st : State) (z d s0 sx x : Q),
     truthy (draggingCueId st) = false -> isPanning st = true ->
     zoom st = Fin z -> 0 < z -> duration p = Fin d -> 0 <= d ->
     dragStartTime st = Fin s0 -> dragStartX st = Fin sx ->
     clientX e = Fin x ->
     let r := handleGlobalMouseMove e container p st in
     (exists centre : Q,
        viewCenterTime (fst r) = Fin centre /\
        clamped_to d (s0 - (x - sx) / z) centre) /\
     snd r = [] /\
     zoom (fst r) = zoom st /\ isFollowing (fst r) = isFollowing st /\
     isPanning (fst r) = true /\ dragStartX (fst r) = dragStartX st /\
     dragStartTime (fst r) = dragStartTime st) /\
  (forall (container : option Container) (p : Props) (st : State)
          (e0 : MouseEvent) (moves : list MouseEvent) (z d c x0 : Q)
          (xs : list Q),
     truthy (draggingCueId st) = false ->
     zoom st = Fin z -> 0 < z -> duration p = Fin d -> 0 <= d ->
     viewCenterTime st = Fin c -> clientX e0 = Fin x0 ->
     map clientX moves = map Fin xs ->
     let st' :=
       fst (run container p (MouseDown e0 :: map MouseMove moves) st) in
     isFollowing st' = false /\
     exists centre : Q,
       viewCenterTime st' = Fin centre /\
       (xs = [] -> centre = c) /\
       (xs <> [] -> clamped_to d (c - (last xs 0 - x0) / z) centre) /\
       (0 <= c <= d -> 0 <= centre <= d)).
Proof.
  split; [|split].
  - intros e st. repeat split; reflexivity.
  - intros e container p st z d s0 sx x Hdrag Hpan Hz Hpos Hd Hd0 Hs0 Hsx Hx r.
    subst r.
    rewrite (pan_move_fin e container p st z d s0 sx x
               Hdrag Hpan Hz Hpos Hd Hs0 Hsx Hx).
    cbn [fst snd]. split.
    + eexists. split; [reflexivity|].
      apply Qclamp_clamped; [exact Hd0|reflexivity].
    + repeat split; try reflexivity. exact Hpan.
  - intros container p st e0 moves z d c x0 xs Hdrag Hz Hpos Hd Hd0 Hc Hx0
      Hxs st'.
    subst st'. cbn [run step].
    rewrite (pan_moves_centre container p z d c x0 Hd Hpos moves xs
               (handleMouseDown e0 st) c Hdrag eq_refl Hz Hc Hx0 Hc Hxs).
    cbn [fst]. split; [reflexivity|].
    eexists. split; [reflexivity|].
    split; [|split].
    + intro E. rewrite E. reflexivity.
    + intro E. destruct xs as [|x xs]; [contradiction|].
      apply Qclamp_clamped; [exact Hd0|reflexivity].
    + intro Hin. destruct xs as [|x xs]; [exact Hin|].
      apply Qclamp_range. exact Hd0.
Qed.

Lemma pan_invariant_witness :
  let cont := mkContainer (mkRect (Fin 0) (Fin 0) (Fin 800) (Fin 400))
                (Fin 800) (Fin 400) in
  let p := mkProps (Fin 0) (Fin 60) in
  let e0 := mkMouse (Fin 100) (Fin 50) in
  let e1 := mkMouse (Fin 40) (Fin 50) in
  let e2 := mkMouse (Fin (-400)) (Fin 50) in
  let st := setViewCenterTime (Fin 90) initial in
  let st' :=
    fst (run (Some cont) p (MouseDown e0 :: map MouseMove [e1; e2]) st) in
  isFollowing st' = false /\
  exists centre : Q,
    viewCenterTime st' = Fin centre /\ 0 <= centre <= 60 /\ centre == 60.
Proof.
  intros cont p e0 e1 e2 st.
  destruct (proj2 (proj2 pan_invariant) (Some cont) p st e0 [e1; e2]
              100 60 90 100 [40; -400]
              eq_refl eq_refl eq_refl eq_refl ltac:(discriminate)
              eq_refl eq_refl eq_refl)
    as (Hfol & centre & Hc & _ & Hclamp & _).
  split; [exact Hfol|].
  exists centre. split; [exact Hc|].
  destruct (Hclamp ltac:(discriminate)) as (Hrange & _ & _ & Habove).
  split; [exact Hrange|].
  apply Habove. vm_compute. discriminate.
Defined.

(** C4.  A pan gesture is a pointer-down on the background, pointer moves
    and a pointer-up, over a mounted viewport and with a positive zoom.
    The moves pan the view: at the pointer-up the view centre is the clamp
    for the last move, or the centre the gesture started with when there
    was no move.  The distance that counts is the horizontal one between
    the pointer-up and the recorded start X.  Below 5 pixels the gesture
    issues exactly one callback, a seek to [(upX - left) / zoom + startT]
    of the view at that moment clamped to [[0, duration]]; at 5 pixels or
    more it issues none. *)
Theorem click_to_seek (cont : Container) (p : Props) (st : State)
  (e0 eu : MouseEvent) (moves : list MouseEvent) (z c d x0 xu l w : Q)
  (xs : list Q) :
  zoom st = Fin z -> 0 < z -> viewCenterTime st = Fin c ->
  duration p = Fin d -> 0 <= d ->
  truthy (draggingCueId st) = false ->
  clientX e0 = Fin x0 -> map clientX moves = map Fin xs ->
  clientX eu = Fin xu ->
  left (getBoundingClientRect cont) = Fin l ->
  width (getBoundingClientRect cont) = Fin w ->
  let out :=
    snd (run (Some cont) p
           (MouseDown e0 :: map MouseMove moves ++ [MouseUp eu]) st) in
  exists centre : Q,
    (xs = [] -> centre = c) /\
    (xs <> [] -> clamped_to d (c - (last xs 0 - x0) / z) centre) /\
    (Qabs (xu - x0) < 5 ->
     exists tm : Q,
       out = [onSeek (Fin tm)] /\
       clamped_to d ((xu - l) / z + (centre - w / 2 / z)) tm) /\
    (5 <= Qabs (xu - x0) -> out = []).
Proof.
  intros Hz Hpos Hc Hd Hd0 Hdrag Hx0 Hxs Hxu Hl Hw out.
  assert (Hnz : ~ z == 0) by (intro E; rewrite E in Hpos; discriminate).
  set (centre := match xs with
                 | [] => c
                 | _ :: _ => Qclamp d (c - (last xs 0 - x0) / z)
                 end).
  set (before := setViewCenterTime (Fin centre) (handleMouseDown e0 st)).
  assert (Hrun : run (Some cont) p (MouseDown e0 :: map MouseMove moves) st
                 = (before, [])).
  { cbn [run step].
    rewrite (pan_moves_centre (Some cont) p z d c x0 Hd Hpos moves xs
               (handleMouseDown e0 st) c Hdrag eq_refl Hz Hc Hx0 Hc Hxs).
    reflexivity. }
  assert (Hout : out = snd (handleGlobalMouseUp eu (Some cont) p before)).
  { subst out.
    change (MouseDown e0 :: map MouseMove moves ++ [MouseUp eu])
      with ((MouseDown e0 :: map MouseMove moves) ++ [MouseUp eu]).
    rewrite run_app, Hrun. cbn [fst snd run step app].
    destruct (handleGlobalMouseUp eu (Some cont) p before) as [st3 out3].
    cbn [snd]. apply app_nil_r. }
  assert (Hseek : clamp (duration p)
                    (xToTime before (width (getBoundingClientRect cont))
                       (clientX eu - left (getBoundingClientRect cont))%num)
                  = Fin (Qclamp d ((xu - l) / z + (centre - w / 2 / z)))).
  { unfold xToTime, startT. subst before.
    cbn [zoom viewCenterTime setViewCenterTime handleMouseDown].
    rewrite Hz, Hd, Hxu, Hl, Hw.
    replace (Fin w / Fin 2)%num with (Fin (w / 2)) by reflexivity.
    rewrite nsub_fin, !(ndiv_fin _ _ Hnz), nsub_fin.
    unfold clamp.
    change (Fin ((xu + - l) / z) + Fin (centre + - (w / 2 / z)))%num
      with (Fin ((xu - l) / z + (centre - w / 2 / z))).
    apply Math_clamp_fin. }
  assert (Hup : out =
    if (Math_abs (Fin xu - Fin x0) <? Fin 5)%num
    then [onSeek (Fin (Qclamp d ((xu - l) / z + (centre - w / 2 / z))))]
    else []).
  { rewrite Hout. unfold handleGlobalMouseUp.
    replace (isPanning before) with true by reflexivity.
    replace (dragStartX before) with (clientX e0) by reflexivity.
    rewrite Hseek, Hxu, Hx0.
    destruct (Math_abs (Fin xu - Fin x0) <? Fin 5)%num; reflexivity. }
  exists centre. split; [|split; [|split]].
  - intro E. subst centre. rewrite E. reflexivity.
  - intro E. subst centre. destruct xs as [|x xs]; [contradiction|].
    apply Qclamp_clamped; [exact Hd0|reflexivity].
  - intro Hlt. apply Math_abs_lt_fin in Hlt. rewrite Hlt in Hup.
    eexists. split; [exact Hup|].
    apply Qclamp_clamped; [exact Hd0|reflexivity].
  - intro Hge. rewrite Hup.
    destruct (Math_abs (Fin xu - Fin x0) <? Fin 5)%num eqn:E; [|reflexivity].
    apply Math_abs_lt_fin in E. exfalso. apply (Qlt_not_le _ _ E Hge).
Qed.

Lemma click_to_seek_witness :
  let cont := mkContainer (mkRect (Fin 0) (Fin 0) (Fin 800) (Fin 400))
                (Fin 800) (Fin 400) in
  let p := mkProps (Fin 0) (Fin 60) in
  let e0 := mkMouse (Fin 100) (Fin 50) in
  let e1 := mkMouse (Fin 102) (Fin 50) in
  let eu := mkMouse (Fin 103) (Fin 50) in
  let st := setViewCenterTime (Fin 10) initial in
  Qabs (103 - 100) < 5 /\
  exists tm : Q,
    snd (run (Some cont) p [MouseDown e0; MouseMove e1; MouseUp eu] st)
    = [onSeek (Fin tm)] /\
    0 <= tm <= 60.
Proof.
  intros cont p e0 e1 eu st. split; [reflexivity|].
  destruct (click_to_seek cont p st e0 eu [e1] 100 10 60 100 103 0 800 [102]
              eq_refl eq_refl eq_refl eq_refl ltac:(discriminate) eq_refl
              eq_refl eq_refl eq_refl eq_refl eq_refl)
    as (centre & _ & _ & Hclick & _).
  destruct (Hclick eq_refl) as (tm & Hout & Hrange & _).
  exists tm. split; [exact Hout | exact Hrange].
Defined.

(** C4 does not hold of the distance the pointer travelled.  A pointer
    that goes down at (100, 50) and up at (100, 300) is 250 pixels from
    where it started, and the gesture seeks, to second 7.  A pointer that
    goes down at X 100, pans to X 400 and comes up at X 101 has travelled
    599 pixels, and the gesture seeks as well. *)
Lemma click_counts_start_x_only :
  let cont := mkContainer (mkRect (Fin 0) (Fin 0) (Fin 800) (Fin 400))
                (Fin 800) (Fin 400) in
  let p := mkProps (Fin 0) (Fin 60) in
  let st := setViewCenterTime (Fin 10) initial in
  let down := mkMouse (Fin 100) (Fin 50) in
  let up_below := mkMouse (Fin 100) (Fin 300) in
  let far := mkMouse (Fin 400) (Fin 50) in
  let up_back := mkMouse (Fin 101) (Fin 50) in
  (5 <= Qabs (300 - 50) /\
   exists t : Q,
     seeks (snd (run (Some cont) p [MouseDown down; MouseUp up_below] st))
     = [onSeek (Fin t)] /\ t == 7) /\
  (5 <= Qabs (400 - 100) + Qabs (101 - 400) /\
   exists t : Q,
     seeks (snd (run (Some cont) p
                   [MouseDown down; MouseMove far; MouseUp up_back] st))
     = [onSeek (Fin t)] /\ t == 401 # 100).
Proof.
  intros cont p st down up_below far up_back.
  split; (split; [discriminate|]); eexists; (split; [reflexivity|]);
    reflexivity.
Qed.

(** ** Dragging a cue *)

Lemma Qclamp_Z (k f : Z) :
  (0 <= k)%Z ->
  Qclamp (inject_Z k) (inject_Z f) = inject_Z (Z.max 0 (Z.min k f)).
Proof.
  intro Hk. unfold Qclamp.
  destruct (Qle_bool (inject_Z k) (inject_Z f)) eqn:E1.
  - apply Qle_bool_iff in E1. rewrite <- Zle_Qle in E1.
    destruct (Qle_bool 0 (inject_Z k)) eqn:E2.
    + f_equal. lia.
    + apply Qle_bool_false_iff in E2.
      change 0 with (inject_Z 0) in E2. rewrite <- Zlt_Qlt in E2. lia.
  - apply Qle_bool_false_iff in E1. rewrite <- Zlt_Qlt in E1.
    destruct (Qle_bool 0 (inject_Z f)) eqn:E2.
    + apply Qle_bool_iff in E2.
      change 0 with (inject_Z 0) in E2. rewrite <- Zle_Qle in E2.
      f_equal. lia.
    + apply Qle_bool_false_iff in E2.
      change 0 with (inject_Z 0) in E2. rewrite <- Zlt_Qlt in E2.
      change 0 with (inject_Z 0). f_equal. lia.
Qed.

(** The snapped time is a tenth of an integer, at most a twentieth of a
    second from the time it was rounded from. *)
Lemma snap_near (q : Q) :
  let n := Qfloor (q * 10 + (1 # 2)) in
  Qabs (inject_Z n / 10 - q) <= 1 # 20.
Proof.
  intro n. destruct (Qround_near (q * 10)) as [Hlo Hhi].
  fold n in Hlo, Hhi.
  assert (E : inject_Z n / 10 == inject_Z n * (1 # 10)) by field.
  rewrite E. apply Qabs_Qle_condition. split; lra.
Qed.

(** A drag computed through: the pointer at (533, 1000) over a viewport
    at (10, 20) of 800 by 400 pixels, zoom 100, centre 0.  The pointer is
    523 pixels in, the window starts at -4 seconds, the time is 1.23,
    snapped to 1.2; the pointer is far below the viewport, the row is 3. *)
Example drag_example :
  let cont := mkContainer (mkRect (Fin 10) (Fin 20) (Fin 800) (Fin 400))
                (Fin 800) (Fin 400) in
  let p := mkProps (Fin 0) (Fin 60) in
  let st := setDraggingCueId (VStr "a") initial in
  handleGlobalMouseMove (mkMouse (Fin 533) (Fin 1000)) (Some cont) p st
  = (st, [onUpdateCue (VStr "a") (timeRow (Fin (12 # 10)) (Fin 3))]).
Proof. reflexivity. Qed.

(** The same pointer above the viewport gives row 0. *)
Example drag_above :
  let rect := mkRect (Fin 10) (Fin 20) (Fin 800) (Fin 400) in
  dragRow (mkMouse (Fin 533) (Fin (-50))) rect = Fin 0.
Proof. reflexivity. Qed.

(** What [handleUpdateCue] does to a cue that carries the id. *)
Lemma update_applies (i : jsval) (t r : num) (app : App.State) (k : nat)
  (c : Cue) :
  nth_error (cues app) k = Some c -> strict_eq (id c) i = true ->
  nth_error (cues (handleUpdateCue i (timeRow t r) app)) k
  = Some (mkCue (id c) t (label c) (color c) r).
Proof.
  intros Hk Hid. simpl. rewrite nth_error_map, Hk. simpl. rewrite Hid.
  reflexivity.
Qed.

(** C3.  On a pointer move while a cue is dragged, over a mounted
    viewport of positive height and with a positive zoom, the handler
    issues one store update for the dragged cue.  Its time is the time
    under the pointer clamped to [0, duration], and with snap-to-grid that
    clamped time rounded to the nearest tenth; its row is
    [floor(pointerY / (height / NUM_ROWS))] clamped to [0, NUM_ROWS - 1],
    wherever the pointer is; and the parent's reaction to the update puts
    both in the dragged cue of the store, on that very move. *)
Theorem drag_move (cont : Container) (p : Props) (st : State)
  (e : MouseEvent) (z c d x y l tp w h : Q) :
  zoom st = Fin z -> 0 < z -> viewCenterTime st = Fin c ->
  duration p = Fin d -> 0 <= d ->
  clientX e = Fin x -> clientY e = Fin y ->
  getBoundingClientRect cont = mkRect (Fin l) (Fin tp) (Fin w) (Fin h) ->
  0 < h ->
  truthy (draggingCueId st) = true ->
  let pointed := Qclamp d ((x - l) / z + (c - w / 2 / z)) in
  let band := Qfloor ((y - tp) / (h / 4)) in
  exists tm rw : Q,
    handleGlobalMouseMove e (Some cont) p st =
    (st, [onUpdateCue (draggingCueId st) (timeRow (Fin tm) (Fin rw))]) /\
    0 <= pointed <= d /\
    (snapToGrid st = false -> tm == pointed) /\
    (snapToGrid st = true ->
     (exists n : Z, tm == inject_Z n / 10) /\ Qabs (tm - pointed) <= 1 # 20) /\
    rw = inject_Z (Z.max 0 (Z.min 3 band)) /\
    0 <= rw <= 3 /\
    forall (ctxTime : num) (app : App.State) (k : nat) (dragged : Cue),
      nth_error (cues app) k = Some dragged ->
      strict_eq (id dragged) (draggingCueId st) = true ->
      nth_error
        (cues (dispatch ctxTime
                 (onUpdateCue (draggingCueId st) (timeRow (Fin tm) (Fin rw)))
                 app)) k
      = Some (mkCue (id dragged) (Fin tm) (label dragged) (color dragged)
                (Fin rw)).
Proof.
  intros Hz Hpos Hc Hd Hd0 Hx Hy Hrect Hh Hdrag pointed band.
  assert (Hnz : ~ z == 0) by (intro E; rewrite E in Hpos; discriminate).
  assert (Hh4 : ~ h / 4 == 0).
  { intro E. assert (Eh : h == h / 4 * 4) by field.
    rewrite E in Eh. lra. }
  exists (if snapToGrid st
          then inject_Z (Qfloor (pointed * 10 + (1 # 2))) / 10
          else pointed).
  exists (inject_Z (Z.max 0 (Z.min 3 band))).
  split; [|split; [|split; [|split; [|split; [|split]]]]].
  - unfold handleGlobalMouseMove. rewrite Hdrag. do 3 f_equal.
    unfold timeRow. f_equal.
    + f_equal. unfold dragTime, xToTime, startT.
      rewrite Hrect, Hx, Hz, Hc, Hd. simpl left. simpl width.
      replace (Fin w / Fin 2)%num with (Fin (w / 2)) by reflexivity.
      rewrite nsub_fin, !(ndiv_fin _ _ Hnz), nsub_fin.
      change (Fin ((x + - l) / z) + Fin (c + - (w / 2 / z)))%num
        with (Fin ((x - l) / z + (c - w / 2 / z))).
      unfold clamp. rewrite Math_clamp_fin. fold pointed.
      destruct (snapToGrid st); reflexivity.
    + f_equal. unfold dragRow. rewrite Hrect, Hy. simpl top. simpl height.
      replace (Fin h / NUM_ROWS)%num with (Fin (h / 4)) by reflexivity.
      rewrite nsub_fin, (ndiv_fin _ _ Hh4).
      change (Math_floor (Fin ((y + - tp) / (h / 4))))
        with (Fin (inject_Z band)).
      change (NUM_ROWS - Fin 1)%num with (Fin (inject_Z 3)).
      rewrite Math_clamp_fin. rewrite Qclamp_Z by lia. reflexivity.
  - apply Qclamp_range. exact Hd0.
  - intro Hs. rewrite Hs. reflexivity.
  - intro Hs. rewrite Hs. split.
    + eexists. reflexivity.
    + apply snap_near.
  - reflexivity.
  - change 0 with (inject_Z 0). change 3 with (inject_Z 3).
    rewrite <- !Zle_Qle. lia.
  - intros ctxTime app k dragged Hk Hid. apply update_applies; assumption.
Qed.

Lemma drag_move_witness :
  let cont := mkContainer (mkRect (Fin 10) (Fin 20) (Fin 800) (Fin 400))
                (Fin 800) (Fin 400) in
  let p := mkProps (Fin 0) (Fin 60) in
  let st := setDraggingCueId (VStr "a") initial in
  let e := mkMouse (Fin 533) (Fin 1000) in
  exists tm rw : Q,
    handleGlobalMouseMove e (Some cont) p st =
    (st, [onUpdateCue (VStr "a") (timeRow (Fin tm) (Fin rw))]) /\
    (exists n : Z, tm == inject_Z n / 10) /\ 0 <= rw <= 3.
Proof.
  intros cont p st e.
  destruct (drag_move cont p st e 100 0 60 533 1000 10 20 800 400)
    as (tm & rw & H1 & _ & _ & H4 & _ & H6 & _);
    try reflexivity; try discriminate.
  exists tm, rw. split; [exact H1|]. split; [|exact H6].
  apply H4. reflexivity.
Defined.

(** C10.  The store update a cue-drag move issues changes nothing but
    the time and the row of the cues carrying the dragged id: every cue
    keeps its position, its id, its label and its color, a cue with
    another id is untouched, the number of cues is the same, and so is the
    rest of the project.  When the cue at one position is the only one
    carrying the dragged id, the cue at every other position is untouched.
    The store does not keep ids apart: every cue that carries the dragged
    id, a primitive, takes the time and the row of the move. *)
Theorem drag_update_frame (e : MouseEvent) (container : option Container)
  (p : Props) (st : State) (ctxTime : num) (app : App.State)
  (cb : callback) :
  truthy (draggingCueId st) = true ->
  In cb (snd (handleGlobalMouseMove e container p st)) ->
  let app' := dispatch ctxTime cb app in
  List.length (cues app') = List.length (cues app) /\
  (forall (k : nat) (c : Cue),
     nth_error (cues app) k = Some c ->
     exists c' : Cue,
       nth_error (cues app') k = Some c' /\
       id c' = id c /\ label c' = label c /\ color c' = color c /\
       (strict_eq (id c) (draggingCueId st) = false -> c' = c)) /\
  setCues (cues app) app' = app /\
  (forall k0 : nat,
     only_at (draggingCueId st) k0 (cues app) ->
     forall k : nat,
       k <> k0 -> nth_error (cues app') k = nth_error (cues app) k) /\
  (primitive (draggingCueId st) = true ->
   exists cont : Container,
     container = Some cont /\
     forall (k : nat) (c : Cue),
       nth_error (cues app) k = Some c ->
       strict_eq (id c) (draggingCueId st) = true ->
       nth_error (cues app') k
       = Some (mkCue (id c) (dragTime e (getBoundingClientRect cont) p st)
                 (label c) (color c)
                 (dragRow e (getBoundingClientRect cont)))).
Proof.
  intros Hdrag Hin app'.
  unfold handleGlobalMouseMove in Hin. rewrite Hdrag in Hin.
  destruct container as [cont|]; simpl in Hin; [|contradiction].
  destruct Hin as [Hcb|[]]. subst cb app'. cbn [dispatch].
  split; [|split; [|split; [|split]]].
  - apply length_map.
  - intros k c Hk. simpl. rewrite nth_error_map, Hk. simpl.
    destruct (strict_eq (id c) (draggingCueId st)) eqn:E.
    + eexists. split; [reflexivity|]. simpl.
      repeat split; try reflexivity. discriminate.
    + exists c. repeat split; reflexivity.
  - destruct app; reflexivity.
  - intros k0 [_ Honly] k Hk. simpl. rewrite nth_error_map.
    destruct (nth_error (cues app) k) as [c|] eqn:E; [|reflexivity].
    simpl. destruct (strict_eq (id c) (draggingCueId st)) eqn:Eid;
      [|reflexivity].
    exfalso. apply Hk. exact (Honly k c E Eid).
  - intros _. exists cont. split; [reflexivity|].
    intros k c Hk Hid. apply update_applies; assumption.
Qed.

Lemma drag_update_frame_witness :
  let cont := mkContainer (mkRect (Fin 10) (Fin 20) (Fin 800) (Fin 400))
                (Fin 800) (Fin 400) in
  let p := mkProps (Fin 0) (Fin 60) in
  let st := setDraggingCueId (VStr "a") initial in
  let e := mkMouse (Fin 533) (Fin 1000) in
  let a := mkCue (VStr "a") (Fin 1) (VStr "one") (VStr "#ef4444") (Fin 0) in
  let b := mkCue (VStr "b") (Fin 2) (VStr "two") (VStr "#22c55e") (Fin 1) in
  let a2 := mkCue (VStr "a") (Fin 5) (VStr "five") (VStr "#3b82f6") (Fin 2) in
  let app := App.mkState None None false (Fin 0) (Fin 60) [a; b; a2] None
               (Fin 0) (Fin 0) in
  let app' :=
    dispatch (Fin 0)
      (onUpdateCue (VStr "a") (timeRow (dragTime e (getBoundingClientRect cont)
                                          p st)
                                 (dragRow e (getBoundingClientRect cont))))
      app in
  List.length (cues app') = 3%nat /\ nth_error (cues app') 1 = Some b /\
  nth_error (cues app') 2
  = Some (mkCue (VStr "a") (dragTime e (getBoundingClientRect cont) p st)
            (VStr "five") (VStr "#3b82f6")
            (dragRow e (getBoundingClientRect cont))).
Proof.
  intros cont p st e a b a2 app app'.
  destruct (drag_update_frame e (Some cont) p st (Fin 0) app _ eq_refl
              (or_introl eq_refl)) as (Hlen & Hnth & _ & _ & Hall).
  split; [exact Hlen|]. split.
  - destruct (Hnth 1%nat b eq_refl) as (c' & Hc' & _ & _ & _ & Hsame).
    transitivity (Some c'); [exact Hc'|].
    f_equal. apply Hsame. reflexivity.
  - destruct (Hall eq_refl) as (cont' & Hcont & Hsame).
    injection Hcont as Hcont. subst cont'.
    exact (Hsame 2%nat a2 eq_refl eq_refl).
Defined.

Local Open Scope string_scope.

(** C10 does not hold of a store in which two cues carry one id.  The
    import takes the ids as the document has them; the two cues below come
    in with the id ["a"] and no alert.  Dragging the first one moves the
    second one with it, to the same time and row. *)
Lemma drag_moves_cue_of_same_id :
  let document :=
    VObj [("cues",
           VArr [VObj [("id", VStr "a"); ("time", VNum (Fin 1));
                       ("label", VStr "one")];
                 VObj [("id", VStr "a"); ("time", VNum (Fin 2));
                       ("label", VStr "two"); ("row", VNum (Fin 1))]])] in
  let empty := App.mkState None None false (Fin 0) (Fin 60) [] None
                 (Fin 0) (Fin 0) in
  let imported := handleCueImport (fun _ => "u") (Some (Ok document)) empty in
  let first := mkCue (VStr "a") (Fin 1) (VStr "one") (VStr "#ef4444") (Fin 0) in
  let second :=
    mkCue (VStr "a") (Fin 2) (VStr "two") (VStr "#ef4444") (Fin 1) in
  let cont := mkContainer (mkRect (Fin 10) (Fin 20) (Fin 800) (Fin 400))
                (Fin 800) (Fin 400) in
  let p := mkProps (Fin 0) (Fin 60) in
  let st := handleCueMouseDown first initial in
  let e := mkMouse (Fin 533) (Fin 1000) in
  snd imported = [] /\ cues (fst imported) = [first; second] /\
  exists cb : callback,
    snd (handleGlobalMouseMove e (Some cont) p st) = [cb] /\
    nth_error (cues (dispatch (Fin 0) cb (fst imported))) 1
    = Some (mkCue (VStr "a") (Fin (12 # 10)) (VStr "two") (VStr "#ef4444")
              (Fin 3)) /\
    nth_error (cues (dispatch (Fin 0) cb (fst imported))) 1 <> Some second.
Proof.
  intros document empty imported first second cont p st e.
  split; [reflexivity|]. split; [reflexivity|].
  eexists. split; [reflexivity|]. split; [reflexivity|].
  discriminate.
Qed.

End TimelineFacts.

(* ================================================================== *)
(** * Import, export and upload *)
(* ================================================================== *)

Module AppFacts.

Import App.

Local Open Scope string_scope.

(** [Number] on the values a document can hold. *)
Example Number_examples :
  map Number
    [VStr "abc"; VStr " 12.5 "; VStr ""; VStr "-1e3"; VStr "0x1F";
     VStr "1,2"; VNull; VUndef; VBool true; VArr []; VArr [VStr "7"];
     VArr [VNum (Fin 1); VNum (Fin 2)]; VObj []]
  = [Ok NaN; Ok (Fin (125 # 10)); Ok (Fin 0); Ok (Fin (- (1000))); Ok (Fin 31);
     Ok NaN; Ok (Fin 0); Ok NaN; Ok (Fin 1); Ok (Fin 0); Ok (Fin 7);
     Ok NaN; Ok NaN].
Proof. vm_compute. reflexivity. Qed.

Section WithUUID.

Variable randomUUID : nat -> string.

(** What the import makes of an object record, field by field. *)
Lemma normalize_object (props : list (string * jsval)) (n : nat) :
  to_string_throws (own_prop props "time") = false ->
  exists (c : Cue) (n' : nat),
    normalize randomUUID (VObj props) n = Ok (c, n') /\
    (truthy (own_prop props "id") = true ->
     id c = own_prop props "id" /\ n' = n) /\
    (truthy (own_prop props "id") = false ->
     id c = VStr (randomUUID n) /\ n' = S n) /\
    (num_truthy (ToNumber (own_prop props "time")) = true ->
     time c = ToNumber (own_prop props "time")) /\
    (num_truthy (ToNumber (own_prop props "time")) = false ->
     time c = Fin 0) /\
    (truthy (own_prop props "label") = false ->
     label c = VStr "Imported Cue") /\
    (truthy (own_prop props "label") = true ->
     label c = own_prop props "label") /\
    (truthy (own_prop props "color") = false -> color c = VStr "#ef4444") /\
    (truthy (own_prop props "color") = true ->
     color c = own_prop props "color") /\
    (typeof (own_prop props "row") <> "number" -> row c = Fin 0) /\
    (forall r, own_prop props "row" = VNum r -> row c = r).
Proof.
  intro Hthrow. unfold normalize, Number. simpl. rewrite Hthrow. simpl.
  destruct (truthy (own_prop props "id")) eqn:Eid; simpl;
    eexists; eexists; (split; [reflexivity|]); simpl;
    unfold js_or;
    destruct (num_truthy (ToNumber (own_prop props "time")));
    destruct (truthy (own_prop props "label"));
    destruct (truthy (own_prop props "color"));
    repeat split; intros; try reflexivity; try discriminate;
    try (destruct (own_prop props "row"); simpl in *; congruence).
Qed.

(** The example of the specification: [{cues: [{time: "abc"}]}]. *)
Example import_abc (st : State) :
  handleCueImport randomUUID
    (Some (Ok (VObj [("cues", VArr [VObj [("time", VStr "abc")]])]))) st
  = (setCues [mkCue (VStr (randomUUID 0)) (Fin 0) (VStr "Imported Cue")
                (VStr "#ef4444") (Fin 0)] st, []).
Proof. reflexivity. Qed.

(** C7.  A document whose [cues] array holds [null] beside a well-formed
    record: reading [c.id] of [null] throws inside [map], the [catch]
    reports a parse failure, and nothing is imported. *)
Theorem import_null_record (st : State) :
  handleCueImport randomUUID
    (Some (Ok (VObj [("cues",
                      VArr [VObj [("time", VNum (Fin 1))]; VNull])]))) st
  = (st, [ConsoleError "Error parsing JSON";
          Alert "Failed to parse JSON file."]).
Proof. reflexivity. Qed.

(** So does a record whose [time] cannot be converted to a number. *)
Example import_unconvertible_time (st : State) :
  handleCueImport randomUUID
    (Some (Ok (VObj [("cues",
                      VArr [VObj [("time",
                                   VObj [("toString", VNum (Fin 1))])]])])))
    st
  = (st, [ConsoleError "Error parsing JSON";
          Alert "Failed to parse JSON file."]).
Proof. reflexivity. Qed.

(** C8.  When the text does not parse, or the parsed document has no
    [cues] array, the import alerts the user and returns the state it was
    given. *)
Theorem import_rejected (parsed : res jsval) (st : State) :
  ~ has_cues_array parsed ->
  fst (handleCueImport randomUUID (Some parsed) st) = st /\
  exists msg : string,
    In (Alert msg) (snd (handleCueImport randomUUID (Some parsed) st)).
Proof.
  intro Hno. unfold handleCueImport, import_cues.
  destruct parsed as [data|e]; simpl.
  - destruct (get data "cues") as [v|e] eqn:G; simpl.
    + destruct v; simpl;
        try (split; [reflexivity|eexists; left; reflexivity]).
      exfalso. apply Hno. exists data, elems. split; [reflexivity|exact G].
    + split; [reflexivity|]. eexists. right. left. reflexivity.
  - split; [reflexivity|]. eexists. right. left. reflexivity.
Qed.

(** The properties of the object [JSON.parse] reads back: a property that
    held [undefined] is gone, any other holds what the document carries of
    its value. *)
Lemma json_of_object (props : list (string * jsval)) :
  exists ps : list (string * jsval),
    json_of (VObj props) = VObj ps /\
    forall k : string,
      (~ In k (map fst props) -> own_prop ps k = VUndef) /\
      (NoDup (map fst props) ->
       own_prop ps k =
       match own_prop props k with VUndef => VUndef | v => json_of v end).
Proof.
  induction props as [|[k0 v] r IH].
  - exists []. split; [reflexivity|]. intro k. split; reflexivity.
  - destruct IH as (ps & Hps & Hk).
    cbn [json_of] in Hps. injection Hps as Hps.
    assert (Hskip : forall k : string,
      ~ In k (map fst ((k0, v) :: r)) ->
      String.eqb k k0 = false /\ own_prop ps k = VUndef).
    { intros k Hnot. cbn [map fst In] in Hnot. split.
      - apply String.eqb_neq. intro E. apply Hnot. left. symmetry. exact E.
      - apply (Hk k). intro Hin. apply Hnot. right. exact Hin. }
    assert (Hhere : forall k : string,
      NoDup (map fst ((k0, v) :: r)) ->
      (String.eqb k k0 = true -> own_prop ps k = VUndef) /\
      own_prop ps k =
      match own_prop r k with VUndef => VUndef | x => json_of x end).
    { intros k Hnd. cbn [map fst] in Hnd.
      inversion Hnd as [|? ? Hnot Hnd']; subst. split.
      - intro E. apply String.eqb_eq in E. subst k. apply (Hk k0). exact Hnot.
      - apply (Hk k). exact Hnd'. }
    destruct v;
      (eexists; split; [cbn [json_of]; rewrite Hps; reflexivity|]);
      intro k; (split; [intro Hnot; destruct (Hskip k Hnot) as [E1 E2]
                       |intro Hnd; destruct (Hhere k Hnd) as [E1 E2]]);
      cbn [own_prop];
      try (rewrite E1; exact E2);
      destruct (String.eqb k k0) eqn:E;
      try reflexivity; try exact E2; try (apply E1; reflexivity).
Qed.

(** What the import makes of an exported cue. *)
Lemma cue_comes_back (c : Cue) (n : nat) :
  exists (c' : Cue) (n' : nat),
    normalize randomUUID (json_of (cue_value c)) n = Ok (c', n') /\
    comes_back c c'.
Proof.
  unfold cue_value.
  destruct (json_of_object
              [("id", id c); ("time", VNum (time c)); ("label", label c);
               ("color", color c); ("row", VNum (row c))])
    as (ps & Hps & Hk).
  rewrite Hps.
  assert (Hnd : NoDup (map fst
              [("id", id c); ("time", VNum (time c)); ("label", label c);
               ("color", color c); ("row", VNum (row c))])).
  { cbn [map fst]. repeat constructor; cbn [In]; intuition discriminate. }
  pose proof (proj2 (Hk "id") Hnd) as Eid.
  pose proof (proj2 (Hk "time") Hnd) as Etime.
  pose proof (proj2 (Hk "label") Hnd) as Elabel.
  pose proof (proj2 (Hk "color") Hnd) as Ecolor.
  pose proof (proj2 (Hk "row") Hnd) as Erow.
  cbn [own_prop String.eqb Ascii.eqb Bool.eqb] in Eid, Etime, Elabel, Ecolor, Erow.
  cbn [json_of] in Etime, Erow.
  assert (Hthrow : to_string_throws (own_prop ps "time") = false).
  { rewrite Etime. destruct (is_finite (time c)); reflexivity. }
  destruct (normalize_object ps n Hthrow)
    as (c' & n' & Hn & Hid & _ & Ht1 & Ht0 & _ & Hl & _ & Hc & Hr0 & Hr).
  exists c', n'. split; [exact Hn|].
  unfold comes_back, kept. repeat split.
  - intro F. destruct (time c) as [q| | |]; try discriminate.
    rewrite Etime in Ht1, Ht0. cbn [is_finite ToNumber] in Ht1, Ht0.
    destruct (num_truthy (Fin q)) eqn:T.
    + rewrite (Ht1 eq_refl). reflexivity.
    + rewrite (Ht0 eq_refl). simpl in T. apply negb_false_iff in T.
      apply Qeq_bool_iff in T. simpl. symmetry. exact T.
  - intro F. apply Ht0. rewrite Etime, F. reflexivity.
  - intro F. apply Hr. rewrite Erow, F. reflexivity.
  - intro F. apply Hr0. rewrite Erow, F. discriminate.
  - intros [T J].
    assert (E : own_prop ps "label" = label c).
    { rewrite Elabel. destruct (label c); try exact J. discriminate T. }
    rewrite <- E. apply Hl. rewrite E. exact T.
  - intros [T J].
    assert (E : own_prop ps "color" = color c).
    { rewrite Ecolor. destruct (color c); try exact J. discriminate T. }
    rewrite <- E. apply Hc. rewrite E. exact T.
  - intros [T J].
    assert (E : own_prop ps "id" = id c).
    { rewrite Eid. destruct (id c); try exact J. discriminate T. }
    rewrite <- E. apply Hid. rewrite E. exact T.
Qed.

Lemma cues_come_back (cs : list Cue) (n : nat) :
  exists cs' : list Cue,
    map_normalize randomUUID (map json_of (map cue_value cs)) n = Ok cs' /\
    Forall2 comes_back cs cs'.
Proof.
  revert n. induction cs as [|c cs IH]; intro n; cbn [map map_normalize].
  - exists []. split; [reflexivity|constructor].
  - destruct (cue_comes_back c n) as (c' & n' & Hn & Hsame).
    rewrite Hn. cbn [bind fst snd].
    destruct (IH n') as (cs' & Hm & Hall). rewrite Hm. cbn [bind].
    exists (c' :: cs'). split; [reflexivity|constructor; assumption].
Qed.

(** C6, as the code has it.  Whatever the store holds, importing the
    exported document raises no alert and replaces the cue set by one of
    as many cues, in the same order.  Each cue comes back with its time
    and its row when they are finite, and with 0 for one that is not; with
    its label and its color when they are kept, that is not empty and
    carried by the document as they are; and with its id when it is
    kept. *)
Theorem export_import_roundtrip (now : string) (st : State) :
  exists cs' : list Cue,
    export_then_import randomUUID now st = (setCues cs' st, []) /\
    List.length cs' = List.length (cues st) /\
    Forall2 comes_back (cues st) cs'.
Proof.
  destruct (cues_come_back (cues st) 0) as (cs' & Hm & Hall).
  exists cs'. split; [|split].
  - unfold export_then_import, handleExport, handleCueImport, import_cues,
      export_data.
    destruct (fileName st); simpl; rewrite Hm; reflexivity.
  - symmetry. eapply Forall2_length. exact Hall.
  - exact Hall.
Qed.

(** C9, as the code has it.  The handler stops playback before it
    decodes.  On a failed decode the failure is alerted and the project is
    as it was: the audio buffer, the duration, the file name and the cues
    are untouched; the state is the one [handleStop] leaves, not playing
    and at time 0. *)
Theorem decode_failure_keeps_project (f : AudioFile) (st : State) (e : exn) :
  af_decoded f = Throw e ->
  let r := handleFileUpload (Some f) st in
  In (Alert "Failed to decode audio file.") (snd r) /\
  same_project st (fst r) /\
  fst r = handleStop st /\
  isPlaying (fst r) = false /\ currentTime (fst r) = Fin 0.
Proof.
  intros Hf r. subst r. unfold handleFileUpload. rewrite Hf. simpl.
  split; [right; left; reflexivity|].
  repeat split; reflexivity.
Qed.

End WithUUID.

(** C6 fails on a time that is not finite.  The import of
    [{"cues": [{"id": "a", "time": "Infinity", "label": "end"}]}] stores a
    cue whose time is [Infinity]; the document writes it [null], and it
    comes back as 0. *)
Lemma roundtrip_infinite_time :
  let empty := mkState None (Some "song.mp3") false (Fin 0) (Fin 60) []
                 None (Fin 0) (Fin 0) in
  let document :=
    VObj [("cues", VArr [VObj [("id", VStr "a"); ("time", VStr "Infinity");
                               ("label", VStr "end")]])] in
  let st := fst (handleCueImport (fun _ => "u") (Some (Ok document)) empty) in
  let st' := fst (export_then_import (fun _ => "u") "now" st) in
  map time (cues st) = [PInf] /\ map time (cues st') = [Fin 0] /\
  ~ Forall2 same_cue (cues st) (cues st').
Proof.
  intros empty document st st'.
  split; [reflexivity|]. split; [reflexivity|].
  intro H. inversion H as [|? ? ? ? Hc _]; subst.
  destruct Hc as (Ht & _). exact Ht.
Qed.

(** A label the user has emptied does not come back either: the document
    carries the empty label, and the import puts ["Imported Cue"] in its
    place, as it does for a record without a label. *)
Lemma roundtrip_empty_label :
  let c := mkCue (VStr "a") (Fin 1) (VStr "") (VStr "#ef4444") (Fin 0) in
  let st := mkState None (Some "song.mp3") false (Fin 0) (Fin 60) [c]
              None (Fin 0) (Fin 0) in
  ~ Forall2 same_cue (cues st)
      (cues (fst (export_then_import (fun _ => "u") "now" st))) /\
  map label (cues st) = [VStr ""] /\
  map label (cues (fst (export_then_import (fun _ => "u") "now" st)))
  = [VStr "Imported Cue"].
Proof.
  intros c st. split; [|split; reflexivity].
  intro H. inversion H as [|? ? ? ? Hc _]; subst.
  destruct Hc as (_ & Hl & _). discriminate.
Qed.

Lemma export_import_roundtrip_witness :
  let a := mkCue (VStr "a") (Fin 1) (VStr "one") (VStr "#ef4444") (Fin 0) in
  let b := mkCue (VNum (Fin 7)) NaN (VNum (Fin 2)) (VStr "#22c55e") PInf in
  let st := mkState None (Some "song.mp3") false (Fin 0) (Fin 60) [a; b]
              None (Fin 0) (Fin 0) in
  exists a' b' : Cue,
    export_then_import (fun _ => "u") "now" st = (setCues [a'; b'] st, []) /\
    (id a' = VStr "a" /\ label a' = VStr "one" /\ color a' = VStr "#ef4444" /\
     row a' = Fin 0) /\
    (id b' = VNum (Fin 7) /\ time b' = Fin 0 /\ label b' = VNum (Fin 2) /\
     row b' = Fin 0).
Proof.
  intros a b st.
  destruct (export_import_roundtrip (fun _ => "u") "now" st)
    as (cs' & Hrun & _ & Hall).
  inversion Hall as [|? a' ? l1 Ha H1]; subst.
  inversion H1 as [|? b' ? l2 Hb H2]; subst.
  inversion H2; subst.
  exists a', b'. split; [exact Hrun|].
  destruct Ha as (_ & _ & Har & _ & Hal & Hac & Hai).
  destruct Hb as (_ & Hbt & _ & Hbr & Hbl & _ & Hbi).
  split.
  - repeat split.
    + apply Hai. split; reflexivity.
    + apply Hal. split; reflexivity.
    + apply Hac. split; reflexivity.
    + apply Har. reflexivity.
  - repeat split.
    + apply Hbi. split; reflexivity.
    + apply Hbt. reflexivity.
    + apply Hbl. split; reflexivity.
    + apply Hbr. reflexivity.
Defined.

(** C9 fails on a project that is playing: the failed upload leaves it
    stopped, at time 0. *)
Lemma decode_failure_mutates :
  let st := mkState (Some (mkBuffer (Fin 60) [])) (Some "song.mp3") true
              (Fin 5) (Fin 60) [] (Some (mkSource (Fin 0))) (Fin 0) (Fin 0) in
  let f := mkAudioFile "broken.mp3" (Throw DecodeError) in
  fst (handleFileUpload (Some f) st) <> st /\
  isPlaying st = true /\
  isPlaying (fst (handleFileUpload (Some f) st)) = false /\
  currentTime st = Fin 5 /\
  currentTime (fst (handleFileUpload (Some f) st)) = Fin 0.
Proof.
  intros st f. split; [discriminate|]. repeat split; reflexivity.
Qed.

Lemma decode_failure_keeps_project_witness :
  let st := mkState (Some (mkBuffer (Fin 60) [])) (Some "song.mp3") true
              (Fin 5) (Fin 60) [] (Some (mkSource (Fin 0))) (Fin 0) (Fin 0) in
  let f := mkAudioFile "broken.mp3" (Throw DecodeError) in
  let r := handleFileUpload (Some f) st in
  In (Alert "Failed to decode audio file.") (snd r) /\
  same_project st (fst r) /\
  fst r = handleStop st /\
  isPlaying (fst r) = false /\ currentTime (fst r) = Fin 0.
Proof.
  intros st f.
  apply (decode_failure_keeps_project f st DecodeError). reflexivity.
Defined.

Lemma import_rejected_witness :
  let st := mkState None (Some "song.mp3") false (Fin 0) (Fin 60)
              [mkCue (VStr "a") (Fin 1) (VStr "one") (VStr "#ef4444") (Fin 0)]
              None (Fin 0) (Fin 0) in
  let parsed := Ok (VObj [("duration", VNum (Fin 60))]) in
  fst (handleCueImport (fun _ => "u") (Some parsed) st) = st /\
  exists msg : string,
    In (Alert msg) (snd (handleCueImport (fun _ => "u") (Some parsed) st)).
Proof.
  intros st parsed.
  apply (import_rejected (fun _ => "u") parsed st).
  intros (data & l & Hd & Hg). inversion Hd; subst. discriminate.
Defined.

End AppFacts.

(* ================================================================== *)
(** * The cue list *)
(* ================================================================== *)

Module CueListFacts.

Import App CueList.

(** ** Sorting *)

Section SortFacts.
Variable A : Type.
Variable compare : A -> A -> num.

Lemma insert_perm (x : A) (l : list A) :
  Permutation (x :: l) (insert compare x l).
Proof.
  induction l as [|y l IH]; cbn [insert].
  - apply Permutation_refl.
  - destruct (compare x y >? Fin 0)%num.
    + eapply perm_trans; [apply perm_swap|].
      apply perm_skip. exact IH.
    + apply Permutation_refl.
Qed.

Lemma Array_sort_perm (l : list A) : Permutation l (Array_sort compare l).
Proof.
  induction l as [|x l IH]; simpl.
  - apply perm_nil.
  - eapply perm_trans; [|apply insert_perm].
    apply perm_skip. exact IH.
Qed.
End SortFacts.

Lemma insert_ascending (x : Cue) (l : list Cue) :
  is_nan (time x) = false -> comparable l -> ascending l ->
  ascending (insert by_time x l).
Proof.
  intros Hx Hl Hs. induction Hs as [|y l Hs IH Hhd]; cbn [insert].
  - repeat constructor.
  - inversion Hl as [|? ? Hy Hl']; subst.
    unfold by_time at 1. rewrite (compare_sub_pos _ _ Hx Hy).
    destruct (nlt (time y) (time x)) eqn:E.
    + constructor; [apply IH; exact Hl'|].
      assert (Hyx : (time y <=? time x)%num = true).
      { rewrite (nlt_nle _ _ Hy Hx) in E. apply negb_true_iff in E.
        destruct (nle_total (time y) (time x) Hy Hx) as [H|H];
          [exact H|congruence]. }
      destruct l as [|w l]; cbn [insert].
      * constructor. exact Hyx.
      * destruct (by_time x w >? Fin 0)%num.
        -- constructor. inversion Hhd; subst. assumption.
        -- constructor. exact Hyx.
    + constructor; [constructor; assumption|].
      constructor. rewrite (nlt_nle _ _ Hy Hx) in E.
      apply negb_false_iff in E. exact E.
Qed.

Lemma sortedCues_comparable (cues : list Cue) :
  comparable cues -> comparable (sortedCues cues).
Proof.
  intro H. unfold comparable in *.
  eapply Permutation_Forall; [|exact H].
  apply Array_sort_perm.
Qed.

Lemma sortedCues_ascending (cues : list Cue) :
  comparable cues -> ascending (sortedCues cues).
Proof.
  intro H. induction H as [|c cues Hc Hcs IH].
  - constructor.
  - change (sortedCues (c :: cues))
      with (insert by_time c (sortedCues cues)).
    apply insert_ascending; auto.
    apply sortedCues_comparable. exact Hcs.
Qed.

(** ** Indices *)

Lemma nth_error_mapi_from {A B : Type} (f : A -> nat -> B) (l : list A)
  (k i : nat) :
  nth_error (mapi_from f k l) i
  = option_map (fun x => f x (k + i)%nat) (nth_error l i).
Proof.
  revert k i. induction l as [|x l IH]; intros k i.
  - destruct i; reflexivity.
  - destruct i as [|i]; simpl.
    + rewrite Nat.add_0_r. reflexivity.
    + rewrite IH. rewrite Nat.add_succ_r. reflexivity.
Qed.

Lemma length_mapi_from {A B : Type} (f : A -> nat -> B) (l : list A)
  (k : nat) : List.length (mapi_from f k l) = List.length l.
Proof.
  revert k. induction l as [|x l IH]; intro k; simpl; [|rewrite IH];
    reflexivity.
Qed.

Lemma findIndex_None {A : Type} (f : A -> bool) (l : list A) :
  findIndex f l = None <-> forall x, In x l -> f x = false.
Proof.
  induction l as [|y l IH]; simpl.
  - split; [intros _ x []|reflexivity].
  - destruct (f y) eqn:E.
    + split; [discriminate|]. intro H. specialize (H y (or_introl eq_refl)).
      congruence.
    + destruct (findIndex f l) as [i|].
      * split; [discriminate|]. intro H. exfalso.
        assert (Hn : Some i = None); [|discriminate].
        apply IH. intros x Hx. apply H. right. exact Hx.
      * split; [|reflexivity]. intros _ x [Hx|Hx]; [subst; exact E|].
        apply (proj1 IH eq_refl). exact Hx.
Qed.

Lemma findIndex_Some {A : Type} (f : A -> bool) (l : list A) (i : nat) :
  findIndex f l = Some i ->
  exists x : A,
    nth_error l i = Some x /\ f x = true /\
    forall (j : nat) (y : A),
      (j < i)%nat -> nth_error l j = Some y -> f y = false.
Proof.
  revert i. induction l as [|y l IH]; simpl; intros i H; [discriminate|].
  destruct (f y) eqn:E.
  - inversion H; subst. exists y. repeat split; auto.
    intros j z Hj. lia.
  - destruct (findIndex f l) as [k|]; [|discriminate].
    inversion H; subst.
    destruct (IH k eq_refl) as (x & Hx & Hfx & Hbefore).
    exists x. repeat split; auto.
    intros [|j] z Hj Hz; simpl in Hz.
    + inversion Hz; subst. exact E.
    + apply (Hbefore j z); [lia|exact Hz].
Qed.

(** ** Status and progress of a row *)

Lemma now_iff (d a : num) :
  is_finite a = true ->
  negb (d <? a)%num && (d <=? Fin 0)%num = true <->
  (d >=? a)%num = true /\ (d <=? Fin 0)%num = true.
Proof.
  intro Ha. rewrite andb_true_iff.
  destruct a as [x| | |]; try discriminate.
  destruct d as [y| | |]; simpl; unfold nge, Qlt_bool; simpl;
    try rewrite negb_involutive; tauto.
Qed.

Lemma nle_not_gt (a b : num) :
  (a <=? b)%num = true -> (a >? b)%num = false.
Proof.
  unfold ngt.
  destruct a as [x| | |], b as [y| | |]; simpl; intro H; auto;
    try discriminate.
  unfold Qlt_bool. rewrite H. reflexivity.
Qed.

Lemma zero_not_pos (w : num) : (w =~ Fin 0)%num -> (w >? Fin 0)%num = false.
Proof.
  destruct w as [q| | |]; simpl; intro H; try contradiction.
  unfold ngt. simpl. apply Qlt_bool_false_iff. rewrite H. apply Qle_refl.
Qed.

(** C2.  The list is computed over the cues sorted by time: a
    permutation of the cue set, ascending whenever no time is [NaN].  The
    row at sorted index [i], for cue [c], has [delta = c.time -
    currentTime]; it is past exactly when [delta < -0.5], now exactly when
    [-0.5 <= delta <= 0]; its window starts at 0 for [i = 0] and at the
    previous sorted cue's time otherwise; its progress is the elapsed
    share of the window, in percent, when the current time is in the
    window and the window has a positive duration, 100 when it is in a
    window of duration zero, 100 when the current time is past the cue,
    and 0 otherwise.  The next cue is the first sorted cue later than the
    current time, and there is none exactly when no cue is later. *)
Theorem cue_list_projection (cues : list Cue) (currentTime : num) :
  let sorted := sortedCues cues in
  Permutation cues sorted /\
  (comparable cues -> ascending sorted) /\
  List.length (rows cues currentTime) = List.length sorted /\
  (forall (i : nat) (c : Cue),
     nth_error sorted i = Some c ->
     exists r : RowView,
       nth_error (rows cues currentTime) i = Some r /\
       cue r = c /\
       diff r = (time c - currentTime)%num /\
       (isPast r = true <-> (diff r <? Fin (- (1 # 2)))%num = true) /\
       (isNow r = true <->
        (diff r >=? Fin (- (1 # 2)))%num = true /\
        (diff r <=? Fin 0)%num = true) /\
       match i with
       | O => prevTime r = Fin 0
       | S j => exists prev : Cue,
                  nth_error sorted j = Some prev /\ prevTime r = time prev
       end /\
       windowDuration r = (time c - prevTime r)%num /\
       let inWindow :=
         (currentTime >=? prevTime r)%num && (currentTime <=? time c)%num in
       (inWindow = true -> (windowDuration r >? Fin 0)%num = true ->
        progressPercent r =
        ((currentTime - prevTime r) / windowDuration r * Fin 100)%num) /\
       (inWindow = true -> (windowDuration r =~ Fin 0)%num ->
        progressPercent r = Fin 100) /\
       ((currentTime >? time c)%num = true -> progressPercent r = Fin 100) /\
       (inWindow = false -> (currentTime >? time c)%num = false ->
        progressPercent r = Fin 0)) /\
  (nextCue cues currentTime = None <->
   forall c : Cue, In c sorted -> (time c >? currentTime)%num = false) /\
  (forall c : Cue,
     nextCue cues currentTime = Some c ->
     exists i : nat,
       nth_error sorted i = Some c /\
       (time c >? currentTime)%num = true /\
       forall (j : nat) (c' : Cue),
         (j < i)%nat -> nth_error sorted j = Some c' ->
         (time c' >? currentTime)%num = false).
Proof.
  intro sorted.
  split; [apply Array_sort_perm|].
  split; [apply sortedCues_ascending|].
  split; [apply length_mapi_from|].
  split; [|split].
  - intros i c Hi.
    exists (row_view currentTime sorted c i).
    split.
    { unfold rows, mapi. fold sorted.
      rewrite nth_error_mapi_from, Hi. reflexivity. }
    split; [reflexivity|]. split; [reflexivity|].
    split; [reflexivity|].
    split; [apply now_iff; reflexivity|].
    assert (Hprev : match i with
                    | O => prevTime (row_view currentTime sorted c i) = Fin 0
                    | S j => exists prev : Cue,
                        nth_error sorted j = Some prev /\
                        prevTime (row_view currentTime sorted c i) = time prev
                    end).
    { destruct i as [|j]; [reflexivity|].
      destruct (nth_error sorted j) as [prev|] eqn:Ej.
      - exists prev. split; [reflexivity|]. simpl. rewrite Ej. reflexivity.
      - exfalso. apply nth_error_None in Ej.
        assert (Hlt : (S j < List.length sorted)%nat)
          by (apply nth_error_Some; congruence).
        lia. }
    split; [exact Hprev|]. split; [reflexivity|].
    cbv zeta.
    set (r := row_view currentTime sorted c i).
    assert (Hp : progressPercent r =
      if (currentTime >=? prevTime r)%num && (currentTime <=? time c)%num
      then if (windowDuration r >? Fin 0)%num
           then ((currentTime - prevTime r) / windowDuration r * Fin 100)%num
           else Fin 100
      else if (currentTime >? time c)%num then Fin 100 else Fin 0)
      by reflexivity.
    rewrite Hp.
    repeat split.
    + intros Hw Hd. rewrite Hw, Hd. reflexivity.
    + intros Hw Hd. rewrite Hw, (zero_not_pos _ Hd). reflexivity.
    + intro Hgt.
      destruct (currentTime <=? time c)%num eqn:Hle.
      * apply nle_not_gt in Hle. congruence.
      * rewrite andb_false_r, Hgt. reflexivity.
    + intros Hw Hgt. rewrite Hw, Hgt. reflexivity.
  - unfold nextCue, nextIndex. fold sorted.
    destruct (findIndex (fun c => (time c >? currentTime)%num) sorted)
      as [i|] eqn:E.
    + destruct (findIndex_Some _ _ _ E) as (x & Hx & Hfx & _).
      rewrite Hx. split; [discriminate|]. intro H.
      apply nth_error_In in Hx. specialize (H x Hx). simpl in H. congruence.
    + split; [|reflexivity]. intros _. apply findIndex_None. exact E.
  - intros c Hc. unfold nextCue, nextIndex in Hc. fold sorted in Hc.
    destruct (findIndex (fun c => (time c >? currentTime)%num) sorted)
      as [i|] eqn:E; [|discriminate].
    destruct (findIndex_Some _ _ _ E) as (x & Hx & Hfx & Hbefore).
    exists i. rewrite Hx in Hc. inversion Hc; subst.
    repeat split; auto.
Qed.

Lemma cue_list_projection_witness :
  let a := mkCue (VStr "a") (Fin 10) (VStr "one") (VStr "#ef4444") (Fin 0) in
  let b := mkCue (VStr "b") (Fin 4) (VStr "two") (VStr "#22c55e") (Fin 1) in
  ascending (sortedCues [a; b]) /\
  exists i : nat,
    nth_error (sortedCues [a; b]) i = Some a /\
    (time a >? Fin 5)%num = true.
Proof.
  intros a b.
  destruct (cue_list_projection [a; b] (Fin 5))
    as (_ & Hasc & _ & _ & _ & Hnext).
  split.
  - apply Hasc. repeat constructor.
  - destruct (Hnext a eq_refl) as (i & Hi & Hgt & _).
    exists i. split; assumption.
Defined.

(** The examples of the specification: a first cue at 10 seconds. *)
Example progress_half :
  let a := mkCue (VStr "a") (Fin 10) (VStr "one") (VStr "#ef4444") (Fin 0) in
  map (fun r => num_strict_eq (progressPercent r) (Fin 50))
      (rows [a] (Fin 5)) = [true].
Proof. reflexivity. Qed.

Example just_passed :
  let a := mkCue (VStr "a") (Fin 10) (VStr "one") (VStr "#ef4444") (Fin 0) in
  map (fun r => (progressPercent r, isNow r, isPast r))
      (rows [a] (Fin (100001 # 10000))) = [(Fin 100, true, false)].
Proof. reflexivity. Qed.

Example long_passed :
  let a := mkCue (VStr "a") (Fin 10) (VStr "one") (VStr "#ef4444") (Fin 0) in
  map (fun r => (isNow r, isPast r)) (rows [a] (Fin (106 # 10)))
  = [(false, true)].
Proof. reflexivity. Qed.

End CueListFacts.

(* ================================================================== *)
(** * The cue store *)
(* ================================================================== *)

Module StoreFacts.

Import App.

Local Open Scope string_scope.

Lemma setCues_same (st : State) : setCues (cues st) st = st.
Proof. destruct st; reflexivity. Qed.

Lemma setCues_twice (a b : list Cue) (st : State) :
  setCues a (setCues b st) = setCues a st.
Proof. reflexivity. Qed.

Lemma filter_absent (i : jsval) (cs : list Cue) :
  Forall (fun c => strict_eq (id c) i = false) cs ->
  filter (fun c => negb (strict_eq (id c) i)) cs = cs.
Proof.
  induction 1 as [|c cs Hc Hcs IH]; simpl; [reflexivity|].
  rewrite Hc. simpl. rewrite IH. reflexivity.
Qed.

Lemma map_absent (i : jsval) (u : CueUpdate) (cs : list Cue) :
  Forall (fun c => strict_eq (id c) i = false) cs ->
  map (fun c => if strict_eq (id c) i then merge c u else c) cs = cs.
Proof.
  induction 1 as [|c cs Hc Hcs IH]; simpl; [reflexivity|].
  rewrite Hc, IH. reflexivity.
Qed.

(** X1.  Adding a cue under an id no cue carries and then deleting that
    id gives back the store, and the whole state, as it was. *)
Theorem add_then_delete (t : num) (uuid : string) (st : State) :
  id_absent (VStr uuid) st ->
  handleDeleteCue (VStr uuid) (handleAddCue t uuid st) = st.
Proof.
  intro H. unfold handleDeleteCue, handleAddCue. simpl.
  rewrite filter_app, (filter_absent _ _ H). simpl.
  rewrite String.eqb_refl. simpl. rewrite app_nil_r.
  rewrite setCues_twice. apply setCues_same.
Qed.

Lemma add_then_delete_witness :
  let a := mkCue (VStr "a") (Fin 1) (VStr "one") (VStr "#ef4444") (Fin 0) in
  let st := mkState None (Some "song.mp3") false (Fin 0) (Fin 60) [a]
              None (Fin 0) (Fin 0) in
  handleDeleteCue (VStr "b") (handleAddCue (Fin 7) "b" st) = st.
Proof.
  intros a st. apply (add_then_delete (Fin 7) "b" st).
  repeat constructor.
Defined.

(** X2.  An update or a delete aimed at an id no cue carries changes
    nothing. *)
Theorem missing_id_no_op (i : jsval) (u : CueUpdate) (st : State) :
  id_absent i st ->
  handleUpdateCue i u st = st /\ handleDeleteCue i st = st.
Proof.
  intro H. unfold handleUpdateCue, handleDeleteCue.
  rewrite (map_absent _ _ _ H), (filter_absent _ _ H).
  split; apply setCues_same.
Qed.

Lemma missing_id_no_op_witness :
  let a := mkCue (VStr "a") (Fin 1) (VStr "one") (VStr "#ef4444") (Fin 0) in
  let st := mkState None (Some "song.mp3") false (Fin 0) (Fin 60) [a]
              None (Fin 0) (Fin 0) in
  let u := mkUpdate (Some (Fin 3)) None None None in
  handleUpdateCue (VStr "zz") u st = st /\ handleDeleteCue (VStr "zz") st = st.
Proof.
  intros a st u. apply (missing_id_no_op (VStr "zz") u st).
  repeat constructor.
Defined.

(** X3.  Deleting a primitive id, as the ids the program draws are,
    leaves no cue that carries it, keeps every other cue, and deleting it
    again changes nothing more. *)
Theorem delete_removes (i : jsval) (st : State) :
  primitive i = true ->
  id_absent i (handleDeleteCue i st) /\
  (forall c : Cue,
     In c (cues (handleDeleteCue i st)) <->
     In c (cues st) /\ strict_eq (id c) i = false) /\
  handleDeleteCue i (handleDeleteCue i st) = handleDeleteCue i st.
Proof.
  intros _.
  assert (Habs : id_absent i (handleDeleteCue i st)).
  { unfold id_absent. simpl. apply Forall_forall. intros c Hc.
    apply filter_In in Hc. destruct Hc as [_ Hc].
    apply negb_true_iff in Hc. exact Hc. }
  split; [exact Habs|]. split.
  - intro c. simpl. rewrite filter_In, negb_true_iff. reflexivity.
  - unfold handleDeleteCue at 1.
    rewrite (filter_absent _ _ Habs). apply setCues_same.
Qed.

Lemma delete_removes_witness :
  let a := mkCue (VStr "a") (Fin 1) (VStr "one") (VStr "#ef4444") (Fin 0) in
  let b := mkCue (VStr "b") (Fin 2) (VStr "two") (VStr "#22c55e") (Fin 1) in
  let st := mkState None (Some "song.mp3") false (Fin 0) (Fin 60) [a; b; a]
              None (Fin 0) (Fin 0) in
  cues (handleDeleteCue (VStr "a") st) = [b] /\
  id_absent (VStr "a") (handleDeleteCue (VStr "a") st) /\
  handleDeleteCue (VStr "a") (handleDeleteCue (VStr "a") st)
  = handleDeleteCue (VStr "a") st.
Proof.
  intros a b st. split; [reflexivity|].
  destruct (delete_removes (VStr "a") st eq_refl) as (Habs & _ & Hagain).
  split; [exact Habs | exact Hagain].
Defined.

Lemma merge_twice (c : Cue) (u : CueUpdate) : merge (merge c u) u = merge c u.
Proof.
  destruct c, u as [[t|] [l|] [k|] [r|]]; reflexivity.
Qed.

Lemma merge_comm (c : Cue) (u v : CueUpdate) :
  disjoint_updates u v -> merge (merge c u) v = merge (merge c v) u.
Proof.
  intros (Ht & Hl & Hk & Hr).
  destruct c, u as [ut ul uk ur], v as [vt vl vk vr]; simpl in *.
  unfold merge; simpl.
  destruct Ht as [-> | ->], Hl as [-> | ->], Hk as [-> | ->],
      Hr as [-> | ->];
    repeat match goal with
           | |- context [match ?x with Some _ => _ | None => _ end] =>
               destruct x
           end; reflexivity.
Qed.

(** X4.  Updates compose: the same update applied twice is the update
    applied once, and two updates that set no field in common, to the
    same cue or to different ones, give the same store in either order. *)
Theorem updates_compose (i j : jsval) (u v : CueUpdate) (st : State) :
  handleUpdateCue i u (handleUpdateCue i u st) = handleUpdateCue i u st /\
  (disjoint_updates u v ->
   handleUpdateCue i u (handleUpdateCue j v st)
   = handleUpdateCue j v (handleUpdateCue i u st)).
Proof.
  unfold handleUpdateCue. simpl. split.
  - rewrite setCues_twice. f_equal. rewrite map_map. apply map_ext.
    intro c. destruct (strict_eq (id c) i) eqn:E; simpl; rewrite E.
    + apply merge_twice.
    + reflexivity.
  - intro Hd. rewrite !setCues_twice. f_equal. rewrite !map_map.
    apply map_ext. intro c.
    destruct (strict_eq (id c) i) eqn:Ei, (strict_eq (id c) j) eqn:Ej;
      simpl; rewrite ?Ei, ?Ej; try reflexivity.
    symmetry. apply merge_comm. exact Hd.
Qed.

Lemma updates_compose_witness :
  let a := mkCue (VStr "a") (Fin 1) (VStr "one") (VStr "#ef4444") (Fin 0) in
  let st := mkState None (Some "song.mp3") false (Fin 0) (Fin 60) [a]
              None (Fin 0) (Fin 0) in
  let drag := mkUpdate (Some (Fin 3)) None None (Some (Fin 2)) in
  let rename := mkUpdate None (Some (VStr "intro")) None None in
  handleUpdateCue (VStr "a") drag (handleUpdateCue (VStr "a") rename st)
  = handleUpdateCue (VStr "a") rename (handleUpdateCue (VStr "a") drag st).
Proof.
  intros a st drag rename.
  apply (proj2 (updates_compose (VStr "a") (VStr "a") drag rename st)).
  repeat split; auto.
Defined.

(** X5.  The label of a new cue counts the cues of the store, not the
    cues ever added: after two additions and the deletion of the first,
    the next cue added gets the label of the second. *)
Theorem labels_repeat (t1 t2 t3 : num) (u1 u2 u3 : string) (st : State) :
  id_absent (VStr u1) st -> u2 <> u1 ->
  let st' :=
    handleAddCue t3 u3
      (handleDeleteCue (VStr u1)
         (handleAddCue t2 u2 (handleAddCue t1 u1 st))) in
  exists c2 c3 : Cue,
    cues st' = (cues st ++ [c2; c3])%list /\
    id c2 = VStr u2 /\ id c3 = VStr u3 /\ label c3 = label c2.
Proof.
  intros Habs Hne st'. subst st'.
  unfold handleAddCue, handleDeleteCue. simpl.
  rewrite !filter_app, (filter_absent _ _ Habs). simpl.
  rewrite String.eqb_refl. simpl.
  assert (E : String.eqb u2 u1 = false) by (apply String.eqb_neq; exact Hne).
  rewrite E. simpl.
  rewrite !app_nil_r, !length_app. cbn [List.length].
  eexists. eexists. split.
  - rewrite <- app_assoc. reflexivity.
  - repeat split.
Qed.

Lemma labels_repeat_witness :
  let st := mkState None (Some "song.mp3") false (Fin 0) (Fin 60) []
              None (Fin 0) (Fin 0) in
  let st' :=
    handleAddCue (Fin 3) "c"
      (handleDeleteCue (VStr "a")
         (handleAddCue (Fin 2) "b" (handleAddCue (Fin 1) "a" st))) in
  exists c2 c3 : Cue,
    cues st' = [c2; c3] /\
    id c2 = VStr "b" /\ id c3 = VStr "c" /\ label c3 = label c2.
Proof.
  intros st st'.
  apply (labels_repeat (Fin 1) (Fin 2) (Fin 3) "a" "b" "c" st).
  - constructor.
  - discriminate.
Defined.

End StoreFacts.

(* ================================================================== *)
(** * What an import leaves in the store *)
(* ================================================================== *)

Module ImportFacts.

Import App.

Local Open Scope string_scope.

Section WithUUID.

Variable randomUUID : nat -> string.

Lemma js_or_truthy (a b : jsval) :
  truthy b = true -> truthy (js_or a b) = true.
Proof.
  intro H. unfold js_or. destruct (truthy a) eqn:E; assumption.
Qed.

Lemma normalize_well_formed (c : jsval) (n n' : nat) (imported : Cue) :
  (forall k : nat, randomUUID k <> "") ->
  normalize randomUUID c n = Ok (imported, n') ->
  well_formed imported.
Proof.
  intros Hne H. unfold normalize in H.
  destruct (get c "id") as [c_id|] eqn:G1; cbn [bind] in H; [|discriminate].
  destruct (get c "time") as [c_time|]; cbn [bind] in H;
    [|destruct (truthy c_id); discriminate].
  destruct (Number c_time) as [t|]; cbn [bind] in H;
    [|destruct (truthy c_id); discriminate].
  destruct (get c "label") as [c_label|]; cbn [bind] in H;
    [|destruct (truthy c_id); discriminate].
  destruct (get c "color") as [c_color|]; cbn [bind] in H;
    [|destruct (truthy c_id); discriminate].
  destruct (get c "row") as [c_row|]; cbn [bind] in H;
    [|destruct (truthy c_id); discriminate].
  assert (Hid : truthy (if truthy c_id then c_id else VStr (randomUUID n))
                = true).
  { destruct (truthy c_id) eqn:E; [exact E|]. simpl.
    apply negb_true_iff. apply String.eqb_neq. apply Hne. }
  destruct (truthy c_id); inversion H; subst; clear H;
    (split; [exact Hid|]); simpl;
    (split; [apply js_or_truthy; reflexivity|]);
    (split; [apply js_or_truthy; reflexivity|]);
    destruct (num_truthy t) eqn:Et; simpl;
    (split; [destruct t; simpl in *; congruence || reflexivity|]);
    auto.
Qed.

Lemma map_normalize_well_formed (l : list jsval) (n : nat) (cs : list Cue) :
  (forall k : nat, randomUUID k <> "") ->
  map_normalize randomUUID l n = Ok cs ->
  Forall well_formed cs /\ List.length cs = List.length l.
Proof.
  intro Hne. revert n cs.
  induction l as [|c l IH]; intros n cs H; cbn [map_normalize] in H.
  - inversion H; subst. split; [constructor|reflexivity].
  - destruct (normalize randomUUID c n) as [[imported n']|] eqn:E;
      cbn [bind fst snd] in H; [|discriminate].
    destruct (map_normalize randomUUID l n') as [rest|] eqn:R;
      cbn [bind] in H; [|discriminate].
    inversion H; subst.
    destruct (IH n' rest R) as [Hall Hlen].
    split.
    + constructor; [|exact Hall].
      eapply normalize_well_formed; eassumption.
    + simpl. rewrite Hlen. reflexivity.
Qed.

(** X6.  When the import of a file raises no alert, the document had a
    [cues] array and the store holds one cue per entry of it, each with an
    id, a label and a color that are not empty (identifiers drawn being
    non-empty) and a time that is not [NaN]; so the cue list sorts them in
    ascending order of time. *)
Theorem import_well_formed (parsed : res jsval) (st : State) :
  (forall k : nat, randomUUID k <> "") ->
  snd (handleCueImport randomUUID (Some parsed) st) = [] ->
  let st' := fst (handleCueImport randomUUID (Some parsed) st) in
  (exists (data : jsval) (l : list jsval),
     parsed = Ok data /\ get data "cues" = Ok (VArr l) /\
     List.length (cues st') = List.length l) /\
  Forall well_formed (cues st') /\
  CueList.ascending (CueList.sortedCues (cues st')).
Proof.
  intros Hne H st'. subst st'. revert H.
  unfold handleCueImport, import_cues.
  destruct parsed as [data|]; cbn [bind]; [|discriminate].
  destruct (get data "cues") as [v|] eqn:G; cbn [bind]; [|discriminate].
  destruct v; try discriminate.
  destruct (map_normalize randomUUID elems 0) as [cs|] eqn:M; cbn [bind];
    [|discriminate].
  intros _. simpl.
  destruct (map_normalize_well_formed _ _ _ Hne M) as [Hall Hlen].
  split; [|split].
  - exists data, elems. repeat split; assumption.
  - exact Hall.
  - apply CueListFacts.sortedCues_ascending.
    unfold CueList.comparable. eapply Forall_impl; [|exact Hall].
    intros c (_ & _ & _ & Hnan & _). exact Hnan.
Qed.

Lemma draws_in_order (l : list jsval) (n : nat) :
  Forall lacks_id l ->
  exists cs : list Cue,
    map_normalize randomUUID l n = Ok cs /\
    map id cs = map (fun k => VStr (randomUUID k)) (seq n (List.length l)).
Proof.
  intro H. revert n.
  induction H as [|c l (props & -> & Hid & Ht) Hl IH]; intro n;
    cbn [map_normalize].
  - exists []. split; reflexivity.
  - destruct (AppFacts.normalize_object randomUUID props n Ht)
      as (imported & n' & Hn & _ & Hdraw & _).
    destruct (Hdraw Hid) as [Hi Hn'].
    rewrite Hn. cbn [bind fst snd]. subst n'.
    destruct (IH (S n)) as (cs & Hm & Hids).
    rewrite Hm. cbn [bind].
    exists (imported :: cs). split; [reflexivity|].
    simpl. rewrite Hi, Hids. reflexivity.
Qed.

(** X7.  When no record of the document has a usable id, the imported
    cues carry the identifiers drawn, one draw per record and in the order
    of the records; when no two draws are equal, no two cues share an
    id. *)
Theorem import_draws_ids (data : jsval) (l : list jsval) (st : State) :
  get data "cues" = Ok (VArr l) -> Forall lacks_id l ->
  let st' := fst (handleCueImport randomUUID (Some (Ok data)) st) in
  map id (cues st')
  = map (fun k => VStr (randomUUID k)) (seq 0 (List.length l)) /\
  ((forall a b : nat, randomUUID a = randomUUID b -> a = b) ->
   NoDup (map id (cues st'))).
Proof.
  intros G Hl st'. subst st'.
  destruct (draws_in_order l 0 Hl) as (cs & Hm & Hids).
  unfold handleCueImport, import_cues. cbn [bind]. rewrite G. cbn [bind].
  rewrite Hm. cbn [bind fst]. simpl cues.
  split; [exact Hids|].
  intro Hinj. rewrite Hids.
  apply Finite.Injective_map_NoDup; [|apply seq_NoDup].
  intros a b E. inversion E. apply Hinj. assumption.
Qed.

(** The [time] entry of an exported cue never makes [Number] throw. *)
Lemma exported_cue_imports (c : Cue) (n : nat) :
  exists (c' : Cue) (n' : nat),
    normalize randomUUID (json_of (cue_value c)) n = Ok (c', n').
Proof.
  assert (H : exists props,
             json_of (cue_value c) = VObj props /\
             to_string_throws (own_prop props "time") = false).
  { destruct c as [ci ct cl cc cr]. unfold cue_value. cbn [json_of].
    eexists. split; [reflexivity|].
    destruct ci; simpl; destruct (is_finite ct); reflexivity. }
  destruct H as (props & -> & Ht).
  destruct (AppFacts.normalize_object randomUUID props n Ht)
    as (c' & n' & Hn & _).
  exists c', n'. exact Hn.
Qed.

Lemma exported_cues_import (cs : list Cue) (n : nat) :
  exists cs' : list Cue,
    map_normalize randomUUID (map json_of (map cue_value cs)) n = Ok cs' /\
    List.length cs' = List.length cs.
Proof.
  revert n. induction cs as [|c cs IH]; intro n; cbn [map map_normalize].
  - exists []. split; reflexivity.
  - destruct (exported_cue_imports c n) as (c' & n' & Hn).
    rewrite Hn. cbn [bind fst snd].
    destruct (IH n') as (cs' & Hm & Hlen). rewrite Hm. cbn [bind].
    exists (c' :: cs'). split; [reflexivity|]. simpl. rewrite Hlen.
    reflexivity.
Qed.

(** X8.  Whatever the store holds, the document it exports is accepted
    by the import: no alert, and as many cues as were exported. *)
Theorem export_always_imports (now : string) (st : State) :
  exists cs' : list Cue,
    export_then_import randomUUID now st = (setCues cs' st, []) /\
    List.length cs' = List.length (cues st).
Proof.
  destruct (exported_cues_import (cues st) 0) as (cs' & Hm & Hlen).
  exists cs'. split; [|exact Hlen].
  unfold export_then_import, handleExport, handleCueImport, import_cues,
    export_data.
  destruct (fileName st); simpl; rewrite Hm; reflexivity.
Qed.

End WithUUID.

Lemma import_well_formed_witness :
  let st := mkState None (Some "song.mp3") false (Fin 0) (Fin 60) []
              None (Fin 0) (Fin 0) in
  let parsed :=
    Ok (VObj [("cues", VArr [VObj [("time", VStr "abc")];
                             VObj [("time", VNum (Fin 3));
                                   ("label", VStr "go")]])]) in
  let st' := fst (handleCueImport (fun _ => "u") (Some parsed) st) in
  Forall well_formed (cues st') /\
  CueList.ascending (CueList.sortedCues (cues st')).
Proof.
  intros st parsed st'.
  apply (import_well_formed (fun _ => "u") parsed st).
  - discriminate.
  - reflexivity.
Defined.

Lemma import_draws_ids_witness :
  let st := mkState None (Some "song.mp3") false (Fin 0) (Fin 60) []
              None (Fin 0) (Fin 0) in
  let l := [VObj [("time", VNum (Fin 1))]; VObj [("time", VNum (Fin 2))]] in
  let st' :=
    fst (handleCueImport decimal (Some (Ok (VObj [("cues", VArr l)]))) st) in
  map id (cues st') = [VStr (decimal 0); VStr (decimal 1)].
Proof.
  intros st l st'.
  apply (proj1 (import_draws_ids decimal (VObj [("cues", VArr l)]) l st
                  eq_refl
                  ltac:(repeat constructor;
                        eexists; repeat split; reflexivity))).
Defined.

End ImportFacts.

(* ================================================================== *)
(** * Playback *)
(* ================================================================== *)

Module TransportFacts.

Import App.

Local Open Scope string_scope.

Lemma nge_fin (a b : Q) : (Fin a >=? Fin b)%num = Qle_bool b a.
Proof. reflexivity. Qed.

Lemma elapsed_after_play (o T dt : Q) : T + dt + - (T + - o) == o + dt.
Proof. ring. Qed.

(** X9.  Playback follows the audio clock: after [playAudio] from offset
    [o] at clock time [T], the frame at clock time [T + dt] sets the
    current time to [o + dt] and asks for the next frame as long as that
    is before the end; from the end on it stops instead, leaving the
    player paused at time 0. *)
Theorem play_then_frame (st : State) (b : AudioBuffer) (o T dt d : Q) :
  audioBuffer st = Some b -> duration st = Fin d ->
  let r := updateProgress (Fin (T + dt)) (playAudio (Fin o) (Fin T) st) in
  (o + dt < d ->
   snd r = true /\ isPlaying (fst r) = true /\
   (currentTime (fst r) =~ Fin (o + dt))%num) /\
  (d <= o + dt ->
   snd r = false /\ isPlaying (fst r) = false /\
   currentTime (fst r) = Fin 0 /\ sourceNodeRef (fst r) = None).
Proof.
  intros Hb Hd r. subst r. unfold playAudio, updateProgress.
  rewrite Hb. cbn [isPlaying negb startTimeRef duration].
  rewrite Hd, !nsub_fin, nge_fin.
  pose proof (elapsed_after_play o T dt) as E.
  split; intro H.
  - assert (Hf : Qle_bool d (T + dt + - (T + - o)) = false).
    { apply Qle_bool_false_iff. rewrite E. exact H. }
    rewrite Hf. simpl. repeat split. exact E.
  - assert (Ht : Qle_bool d (T + dt + - (T + - o)) = true).
    { apply Qle_bool_iff. rewrite E. exact H. }
    rewrite Ht. repeat split.
Qed.

Lemma play_then_frame_witness :
  let st := mkState (Some (mkBuffer (Fin 60) [])) (Some "song.mp3") false
              (Fin 0) (Fin 60) [] None (Fin 0) (Fin 0) in
  let r := updateProgress (Fin (100 + 2))
             (playAudio (Fin 5) (Fin 100) st) in
  snd r = true /\ isPlaying (fst r) = true /\
  (currentTime (fst r) =~ Fin (5 + 2))%num.
Proof.
  intros st.
  apply (proj1 (play_then_frame st (mkBuffer (Fin 60) []) 5 100 2 60
                  eq_refl eq_refl)).
  reflexivity.
Defined.

(** X10.  Pausing and resuming loses no time: with audio loaded and the
    current time [c] before the end, pausing keeps the current time, and
    after resuming at clock time [T] the frame at [T + dt] shows
    [c + dt].  Resuming at or past the end starts over from 0. *)
Theorem pause_then_resume (st : State) (b : AudioBuffer) (T0 : num)
  (c T d : Q) :
  audioBuffer st = Some b -> isPlaying st = true ->
  currentTime st = Fin c -> duration st = Fin d ->
  let paused := handlePlayPause T0 st in
  let resumed := handlePlayPause (Fin T) paused in
  isPlaying paused = false /\ currentTime paused = Fin c /\
  isPlaying resumed = true /\
  (c < d ->
   forall dt : Q,
     c + dt < d ->
     (currentTime (fst (updateProgress (Fin (T + dt)) resumed))
      =~ Fin (c + dt))%num) /\
  (d <= c ->
   currentTime resumed = Fin 0 /\ startTimeRef resumed = (Fin T - Fin 0)%num).
Proof.
  intros Hb Hp Hc Hd paused resumed. subst paused resumed.
  assert (Hpa : handlePlayPause T0 st = pauseAudio st)
    by (unfold handlePlayPause; rewrite Hp; reflexivity).
  rewrite Hpa.
  unfold handlePlayPause. cbn [pauseAudio isPlaying currentTime duration].
  rewrite Hc, Hd, nge_fin.
  split; [reflexivity|]. split; [reflexivity|].
  destruct (Qle_bool d c) eqn:E.
  - apply Qle_bool_iff in E.
    unfold playAudio. simpl. rewrite Hb. simpl.
    split; [reflexivity|]. split.
    + intro Hlt. exfalso. apply (Qlt_not_le _ _ Hlt E).
    + intros _. split; reflexivity.
  - apply Qle_bool_false_iff in E.
    unfold playAudio. simpl. rewrite Hb. simpl.
    split; [reflexivity|]. split.
    + intros _ dt Hdt. unfold updateProgress. simpl.
      rewrite Hd.
      assert (Hf : Qle_bool d (T + dt + - (T + - c)) = false).
      { apply Qle_bool_false_iff. rewrite elapsed_after_play. exact Hdt. }
      unfold nge. simpl. rewrite Hf. simpl. apply elapsed_after_play.
    + intro Hle. exfalso. apply (Qlt_not_le _ _ E Hle).
Qed.

Lemma pause_then_resume_witness :
  let st := mkState (Some (mkBuffer (Fin 60) [])) (Some "song.mp3") true
              (Fin 5) (Fin 60) [] (Some (mkSource (Fin 0))) (Fin 95)
              (Fin 0) in
  let resumed := handlePlayPause (Fin 200) (handlePlayPause (Fin 100) st) in
  (currentTime (fst (updateProgress (Fin (200 + 3)) resumed))
   =~ Fin (5 + 3))%num.
Proof.
  intros st.
  destruct (pause_then_resume st (mkBuffer (Fin 60) []) (Fin 100) 5 200 60
              eq_refl eq_refl eq_refl eq_refl) as (_ & _ & _ & H & _).
  apply H; reflexivity.
Defined.

(** X11.  A seek moves the current time and nothing else of the
    project: with audio loaded, the player goes on playing, or stays
    paused, as it was, and a playing player continues from the time
    sought. *)
Theorem seek_keeps_transport (st : State) (b : AudioBuffer) (t ctxTime : num) :
  audioBuffer st = Some b ->
  let st' := handleSeek t ctxTime st in
  same_project st st' /\
  isPlaying st' = isPlaying st /\
  currentTime st' = t /\ pauseTimeRef st' = t /\
  (isPlaying st = true ->
   startTimeRef st' = (ctxTime - t)%num /\
   sourceNodeRef st' = Some (mkSource t)).
Proof.
  intros Hb st'. subst st'. unfold handleSeek, same_project.
  destruct (isPlaying st) eqn:Hp.
  - unfold playAudio. simpl. rewrite Hb. simpl.
    repeat split; reflexivity.
  - simpl. rewrite Hp. repeat split; try reflexivity; discriminate.
Qed.

Lemma seek_keeps_transport_witness :
  let st := mkState (Some (mkBuffer (Fin 60) [])) (Some "song.mp3") true
              (Fin 5) (Fin 60) [] (Some (mkSource (Fin 0))) (Fin 95)
              (Fin 0) in
  let st' := handleSeek (Fin 30) (Fin 100) st in
  isPlaying st' = true /\ currentTime st' = Fin 30.
Proof.
  intros st.
  destruct (seek_keeps_transport st (mkBuffer (Fin 60) []) (Fin 30) (Fin 100)
              eq_refl) as (_ & H1 & H2 & _).
  split; [exact H1|exact H2].
Defined.

Lemma transport_silent (op : transport_op) (st : State) :
  audioBuffer st = None -> isPlaying st = false ->
  audioBuffer (transport op st) = None /\ isPlaying (transport op st) = false.
Proof.
  intros Hb Hp. destruct op as [ctx|t ctx| |now]; simpl.
  - unfold handlePlayPause. rewrite Hp.
    destruct (currentTime st >=? duration st)%num;
      unfold playAudio; simpl; rewrite Hb; simpl; split; assumption.
  - unfold handleSeek. rewrite Hp. simpl. split; assumption.
  - split; [exact Hb|reflexivity].
  - unfold updateProgress. rewrite Hp. simpl. split; assumption.
Qed.

(** X12.  Without a decoded audio buffer nothing starts playback: from a
    paused player with no buffer, no sequence of play/pause, seek, stop
    and animation frames makes it play. *)
Theorem no_buffer_never_plays (ops : list transport_op) (st : State) :
  audioBuffer st = None -> isPlaying st = false ->
  isPlaying (transports ops st) = false.
Proof.
  revert st. unfold transports.
  induction ops as [|op ops IH]; intros st Hb Hp; simpl; [exact Hp|].
  destruct (transport_silent op st Hb Hp) as [Hb' Hp'].
  apply IH; assumption.
Qed.

Lemma no_buffer_never_plays_witness :
  let st := mkState None None false (Fin 0) (Fin 0) [] None (Fin 0) (Fin 0) in
  isPlaying (transports [PlayPause (Fin 1); Seek (Fin 3) (Fin 2);
                         PlayPause (Fin 4); Frame (Fin 5)] st) = false.
Proof.
  intros st. apply (no_buffer_never_plays _ st); reflexivity.
Defined.

End TransportFacts.

(* ================================================================== *)
(** * The view: mapping, follow mode, gestures, drawing *)
(* ================================================================== *)

Module ViewFacts.

Import App Timeline.

Local Open Scope string_scope.

Section FiniteView.

Variables (st : State) (z c : Q).
Hypothesis Hz : zoom st = Fin z.
Hypothesis Hc : viewCenterTime st = Fin c.
Hypothesis Hpos : 0 < z.

Lemma zoom_nonzero : ~ z == 0.
Proof. intro E. rewrite E in Hpos. discriminate. Qed.

Lemma startT_fin (w : Q) : startT st (Fin w) = Fin (c + - (w / 2 / z)).
Proof.
  unfold startT. rewrite Hz, Hc.
  replace (Fin w / Fin 2)%num with (Fin (w / 2)) by reflexivity.
  rewrite (ndiv_fin _ _ zoom_nonzero). reflexivity.
Qed.

Lemma endT_fin (w : Q) : endT st (Fin w) = Fin (c + w / 2 / z).
Proof.
  unfold endT. rewrite Hz, Hc.
  replace (Fin w / Fin 2)%num with (Fin (w / 2)) by reflexivity.
  rewrite (ndiv_fin _ _ zoom_nonzero). reflexivity.
Qed.

Lemma timeToX_fin (w t : Q) :
  timeToX st (Fin w) (Fin t) = Fin ((t + - (c + - (w / 2 / z))) * z).
Proof. unfold timeToX. rewrite startT_fin, Hz. reflexivity. Qed.

Lemma xToTime_fin (w x : Q) :
  xToTime st (Fin w) (Fin x) = Fin (x / z + (c + - (w / 2 / z))).
Proof.
  unfold xToTime. rewrite startT_fin, Hz.
  rewrite (ndiv_fin _ _ zoom_nonzero). reflexivity.
Qed.

Lemma pixel_of_time (w t : Q) :
  (t + - (c + - (w / 2 / z))) * z == (t - c) * z + w / 2.
Proof. field. exact zoom_nonzero. Qed.

End FiniteView.

(** X13.  The mapping is also inverse the other way round: the time under
    a pixel is drawn at that pixel. *)
Theorem mapper_right_inverse (st : State) (z c w x : Q) :
  zoom st = Fin z -> viewCenterTime st = Fin c -> 0 < z ->
  (timeToX st (Fin w) (xToTime st (Fin w) (Fin x)) =~ Fin x)%num.
Proof.
  intros Hz Hc Hpos.
  rewrite (xToTime_fin st z c Hz Hc Hpos).
  rewrite (timeToX_fin st z c Hz Hc Hpos).
  simpl. field. exact (zoom_nonzero z Hpos).
Qed.

Lemma mapper_right_inverse_witness :
  (timeToX initial (Fin 800) (xToTime initial (Fin 800) (Fin 123))
   =~ Fin 123)%num.
Proof.
  apply (mapper_right_inverse initial 100 0 800 123); reflexivity.
Defined.

(** X14.  The mapping keeps the order of times, and a time is inside the
    visible window [startT, endT] exactly when its pixel is inside the
    viewport [0, width]. *)
Theorem mapper_order (st : State) (z c w t1 t2 : Q) :
  zoom st = Fin z -> viewCenterTime st = Fin c -> 0 < z ->
  ((timeToX st (Fin w) (Fin t1) <? timeToX st (Fin w) (Fin t2))%num = true
   <-> t1 < t2) /\
  ((startT st (Fin w) <=? Fin t1)%num = true /\
   (Fin t1 <=? endT st (Fin w))%num = true
   <->
   (Fin 0 <=? timeToX st (Fin w) (Fin t1))%num = true /\
   (timeToX st (Fin w) (Fin t1) <=? Fin w)%num = true).
Proof.
  intros Hz Hc Hpos.
  rewrite !(timeToX_fin st z c Hz Hc Hpos).
  rewrite (startT_fin st z c Hz Hc Hpos), (endT_fin st z c Hz Hc Hpos).
  cbn [nlt nle]. rewrite Qlt_bool_iff, !Qle_bool_iff.
  rewrite !(pixel_of_time z c Hpos).
  assert (Hs : w / 2 / z * z == w / 2)
    by (field; exact (zoom_nonzero z Hpos)).
  set (k := w / 2 / z) in *. clearbody k.
  assert (Hw2 : w / 2 == w * (1 # 2)) by field.
  rewrite Hw2 in Hs. rewrite !Hw2.
  assert (E1 : (t1 - c) * z == t1 * z - c * z) by ring.
  assert (E2 : (t2 - c) * z == t2 * z - c * z) by ring.
  assert (E3 : (c - k) * z == c * z - k * z) by ring.
  assert (E4 : (c + k) * z == c * z + k * z) by ring.
  rewrite E1, E2.
  split; [split; intro H|split; intros [H1 H2]].
  - assert (Hm : t1 * z < t2 * z) by lra.
    apply Qmult_lt_r in Hm; [exact Hm|exact Hpos].
  - assert (Hm : t1 * z < t2 * z)
      by (apply Qmult_lt_r; [exact Hpos|exact H]).
    lra.
  - assert (Ha : (c - k) * z <= t1 * z)
      by (apply Qmult_le_r; [exact Hpos|lra]).
    assert (Hb : t1 * z <= (c + k) * z)
      by (apply Qmult_le_r; [exact Hpos|lra]).
    rewrite E3 in Ha. rewrite E4 in Hb. split; lra.
  - assert (Ha : (c - k) * z <= t1 * z) by (rewrite E3; lra).
    assert (Hb : t1 * z <= (c + k) * z) by (rewrite E4; lra).
    apply Qmult_le_r in Ha; [|exact Hpos].
    apply Qmult_le_r in Hb; [|exact Hpos].
    split; lra.
Qed.

Lemma mapper_order_witness :
  (timeToX initial (Fin 800) (Fin 1) <? timeToX initial (Fin 800) (Fin 2))%num
  = true.
Proof.
  apply (proj1 (mapper_order initial 100 0 800 1 2 eq_refl eq_refl eq_refl)).
  reflexivity.
Defined.

(** X15.  In follow mode the effect puts the view centre on the playback
    position, and the playhead is then drawn in the middle of the
    viewport, fully opaque. *)
Theorem follow_centres_playhead (cont : Container) (p : Props) (st : State)
  (z ct w : Q) :
  isFollowing st = true -> zoom st = Fin z -> 0 < z ->
  currentTime p = Fin ct -> clientWidth cont = Fin w -> 0 <= w ->
  let st' := syncFollow p st in
  viewCenterTime st' = currentTime p /\
  (getPlayheadX (Some cont) p st' =~ Fin (w / 2))%num /\
  playheadOpacity (Some cont) p st' = Fin 1.
Proof.
  intros Hf Hz Hpos Hct Hw Hw0 st'. subst st'.
  unfold syncFollow. rewrite Hf.
  assert (Hx : getPlayheadX (Some cont) p
                 (setViewCenterTime (currentTime p) st)
               = Fin ((ct + - (ct + - (w / 2 / z))) * z)).
  { unfold getPlayheadX, getCueScreenX. rewrite Hw, Hct.
    apply timeToX_fin; [exact Hz|reflexivity|exact Hpos]. }
  assert (Hv : (ct + - (ct + - (w / 2 / z))) * z == w / 2)
    by (field; exact (zoom_nonzero z Hpos)).
  assert (Hhalf : 0 <= w / 2 /\ w / 2 <= w /\ (w == 0 -> w / 2 <= 0)).
  { assert (Hw2 : w / 2 == w * (1 # 2)) by field.
    split; [|split].
    - rewrite Hw2. lra.
    - rewrite Hw2. lra.
    - intro E. rewrite Hw2, E. discriminate. }
  destruct Hhalf as (Hh0 & Hh1 & Hh2).
  split; [reflexivity|]. split.
  - rewrite Hx. simpl. exact Hv.
  - unfold playheadOpacity. rewrite Hx. unfold clientWidth_or. rewrite Hw.
    cbn [nge nle num_truthy].
    assert (H0 : Qle_bool 0 ((ct + - (ct + - (w / 2 / z))) * z) = true).
    { apply Qle_bool_iff. rewrite Hv. exact Hh0. }
    rewrite H0. cbn [andb].
    destruct (is_zero w) eqn:E; cbn [negb].
    + apply Qeq_bool_iff in E.
      assert (H1 : Qle_bool ((ct + - (ct + - (w / 2 / z))) * z) 0 = true).
      { apply Qle_bool_iff. rewrite Hv. apply Hh2. exact E. }
      rewrite H1. reflexivity.
    + assert (H1 : Qle_bool ((ct + - (ct + - (w / 2 / z))) * z) w = true).
      { apply Qle_bool_iff. rewrite Hv. exact Hh1. }
      rewrite H1. reflexivity.
Qed.

Lemma follow_centres_playhead_witness :
  let cont := mkContainer (mkRect (Fin 0) (Fin 0) (Fin 800) (Fin 400))
                (Fin 800) (Fin 400) in
  let p := mkProps (Fin 12) (Fin 60) in
  playheadOpacity (Some cont) p (syncFollow p initial) = Fin 1.
Proof.
  intros cont p.
  apply (proj2 (proj2 (follow_centres_playhead cont p initial 100 12 800
                         eq_refl eq_refl eq_refl eq_refl eq_refl
                         ltac:(discriminate)))).
Defined.

End ViewFacts.

(* ================================================================== *)
(** * The gesture machine *)
(* ================================================================== *)

Module GestureFacts.

Import App Timeline.

Local Open Scope string_scope.

Lemma up_frame (e : MouseEvent) (container : option Container) (p : Props)
  (st : State) :
  let st' := fst (handleGlobalMouseUp e container p st) in
  truthy (draggingCueId st') = false /\ isPanning st' = false /\
  zoom st' = zoom st /\ viewCenterTime st' = viewCenterTime st /\
  isFollowing st' = isFollowing st /\ snapToGrid st' = snapToGrid st.
Proof.
  intro st'. subst st'. unfold handleGlobalMouseUp.
  destruct (truthy (draggingCueId st)) eqn:Ed;
    destruct (isPanning st) eqn:Ep;
    try (destruct (Math_abs (clientX e - dragStartX st) <? Fin 5)%num;
         try destruct container);
    simpl; repeat split; assumption || reflexivity.
Qed.

(** X16.  A pointer-up ends every gesture: afterwards no cue is dragged
    and the view is not panning, zoom, view centre, follow mode and snap
    are what they were, and a pointer move on the idle machine changes
    nothing and calls nothing. *)
Theorem release_ends_gesture (e e' : MouseEvent)
  (container : option Container) (p : Props) (st : State) :
  let st' := fst (handleGlobalMouseUp e container p st) in
  truthy (draggingCueId st') = false /\ isPanning st' = false /\
  zoom st' = zoom st /\ viewCenterTime st' = viewCenterTime st /\
  isFollowing st' = isFollowing st /\ snapToGrid st' = snapToGrid st /\
  handleGlobalMouseMove e' container p st' = (st', []).
Proof.
  intro st'.
  destruct (up_frame e container p st) as (H1 & H2 & H3 & H4 & H5 & H6).
  fold st' in H1, H2, H3, H4, H5, H6.
  repeat split; try assumption.
  unfold handleGlobalMouseMove. rewrite H1, H2. reflexivity.
Qed.

Lemma step_settings (container : option Container) (p : Props) (ev : event)
  (st : State) :
  zoom (fst (step container p ev st)) = zoom st /\
  snapToGrid (fst (step container p ev st)) = snapToGrid st /\
  (isFollowing st = false -> isFollowing (fst (step container p ev st)) = false).
Proof.
  destruct ev as [e|c|e|e]; simpl.
  - repeat split; reflexivity.
  - repeat split; auto.
  - unfold handleGlobalMouseMove.
    destruct (truthy (draggingCueId st)).
    + destruct container; simpl; repeat split; auto.
    + destruct (isPanning st); simpl; repeat split; auto.
  - destruct (up_frame e container p st) as (_ & _ & Hz & _ & Hf & Hs).
    repeat split; auto. intro H. rewrite Hf. exact H.
Qed.

(** X17.  No sequence of pointer events changes the zoom or the snap
    setting, none turns follow mode on, and any sequence with a
    pointer-down on the background ends with follow mode off. *)
Theorem gestures_keep_settings (container : option Container) (p : Props)
  (evs : list event) (st : State) :
  let st' := fst (run container p evs st) in
  zoom st' = zoom st /\ snapToGrid st' = snapToGrid st /\
  (isFollowing st = false -> isFollowing st' = false) /\
  (forall e : MouseEvent, In (MouseDown e) evs -> isFollowing st' = false).
Proof.
  revert st. induction evs as [|ev evs IH]; intro st; simpl.
  - repeat split; auto. intros e [].
  - destruct (step_settings container p ev st) as (Hz & Hs & Hf).
    destruct (step container p ev st) as [st1 out1] eqn:E1.
    specialize (IH st1). simpl in IH.
    destruct (run container p evs st1) as [st2 out2].
    simpl in *. destruct IH as (Iz & Is & If & Id).
    repeat split; try congruence.
    + intro H. apply If. apply Hf. exact H.
    + intros e [He|He].
      * subst ev. simpl in E1. inversion E1; subst. apply If. reflexivity.
      * apply (Id e He).
Qed.

Lemma snap_nonneg (q : Q) :
  0 <= q -> 0 <= inject_Z (Qfloor (q * 10 + (1 # 2))) / 10.
Proof.
  intro H.
  assert (Hz : (0 <= Qfloor (q * 10 + (1 # 2)))%Z).
  { change 0%Z with (Qfloor 0). apply Qfloor_resp_le. lra. }
  assert (E : inject_Z (Qfloor (q * 10 + (1 # 2))) / 10
              == inject_Z (Qfloor (q * 10 + (1 # 2))) * (1 # 10)) by field.
  rewrite E. rewrite Zle_Qle in Hz. change (inject_Z 0) with 0 in Hz. lra.
Qed.

(** X18.  The time a drag applies is never negative; without snap it is
    at most the duration, and with snap it can pass the duration, by at
    most a twentieth of a second. *)
Theorem drag_time_bounds (e : MouseEvent) (rect : DOMRect) (p : Props)
  (st : State) (z c d x l w : Q) :
  zoom st = Fin z -> 0 < z -> viewCenterTime st = Fin c ->
  duration p = Fin d -> 0 <= d ->
  clientX e = Fin x -> left rect = Fin l -> width rect = Fin w ->
  exists tm : Q,
    dragTime e rect p st = Fin tm /\
    0 <= tm /\ tm <= d + (1 # 20) /\
    (snapToGrid st = false -> tm <= d).
Proof.
  intros Hz Hpos Hc Hd Hd0 Hx Hl Hw.
  unfold dragTime. rewrite Hx, Hl, Hw, Hd, nsub_fin.
  rewrite (ViewFacts.xToTime_fin st z c Hz Hc Hpos).
  unfold clamp. rewrite Math_clamp_fin.
  set (pointed := Qclamp d ((x + - l) / z + (c + - (w / 2 / z)))).
  destruct (Qclamp_range d ((x + - l) / z + (c + - (w / 2 / z))) Hd0)
    as [Hlo Hhi].
  fold pointed in Hlo, Hhi.
  destruct (snapToGrid st).
  - exists (inject_Z (Qfloor (pointed * 10 + (1 # 2))) / 10).
    split; [reflexivity|]. split; [apply snap_nonneg; exact Hlo|].
    split; [|discriminate].
    pose proof (TimelineFacts.snap_near pointed) as Hn. cbv zeta in Hn.
    apply Qabs_Qle_condition in Hn. destruct Hn as [_ Hn].
    set (tm := inject_Z (Qfloor (pointed * 10 + (1 # 2))) / 10) in *.
    clearbody tm pointed. lra.
  - exists pointed. split; [reflexivity|].
    split; [exact Hlo|]. split; [lra|]. intros _. exact Hhi.
Qed.

Lemma drag_time_bounds_witness :
  let rect := mkRect (Fin 0) (Fin 0) (Fin 800) (Fin 400) in
  let p := mkProps (Fin 0) (Fin (1007 # 100)) in
  let e := mkMouse (Fin 5000) (Fin 10) in
  exists tm : Q,
    dragTime e rect p initial = Fin tm /\ 0 <= tm /\
    tm <= (1007 # 100) + (1 # 20).
Proof.
  intros rect p e.
  destruct (drag_time_bounds e rect p initial 100 0 (1007 # 100) 5000 0 800
              eq_refl eq_refl eq_refl eq_refl ltac:(discriminate)
              eq_refl eq_refl eq_refl) as (tm & H1 & H2 & H3 & _).
  exists tm. repeat split; assumption.
Defined.

(** With snap on, a cue dragged to the end of a 10.07 second file is put
    at 10.1 seconds. *)
Example snap_passes_the_end :
  let rect := mkRect (Fin 0) (Fin 0) (Fin 800) (Fin 400) in
  let p := mkProps (Fin 0) (Fin (1007 # 100)) in
  dragTime (mkMouse (Fin 5000) (Fin 10)) rect p initial = Fin (101 # 10).
Proof. reflexivity. Qed.

Lemma drag_moves (cont : Container) (p : Props) (moves : list MouseEvent)
  (st : State) :
  truthy (draggingCueId st) = true ->
  run (Some cont) p (map MouseMove moves) st
  = (st,
     map (fun e =>
            onUpdateCue (draggingCueId st)
              (timeRow (dragTime e (getBoundingClientRect cont) p st)
                 (dragRow e (getBoundingClientRect cont)))) moves).
Proof.
  intro Hd. induction moves as [|e moves IH]; cbn [map run]; [reflexivity|].
  cbn [step]. unfold handleGlobalMouseMove at 1. rewrite Hd.
  rewrite IH. reflexivity.
Qed.

(** X29.  A cue drag, from the pointer-down on the marker of a cue with
    an id through any pointer moves to the pointer-up, over a mounted
    viewport that is not panning: every move issues one update for that
    cue and nothing else, no seek is issued, the view does not move, and
    the machine ends idle. *)
Theorem cue_drag_gesture (cont : Container) (p : Props) (st : State)
  (c : Cue) (moves : list MouseEvent) (eu : MouseEvent) :
  truthy (id c) = true -> isPanning st = false ->
  let rect := getBoundingClientRect cont in
  let r :=
    run (Some cont) p
      (CueMouseDown c :: map MouseMove moves ++ [MouseUp eu]) st in
  snd r
  = map (fun e =>
           onUpdateCue (id c) (timeRow (dragTime e rect p st) (dragRow e rect)))
        moves /\
  viewCenterTime (fst r) = viewCenterTime st /\
  isFollowing (fst r) = isFollowing st /\
  truthy (draggingCueId (fst r)) = false /\ isPanning (fst r) = false.
Proof.
  intros Hid Hpan rect r. subst r.
  change (CueMouseDown c :: map MouseMove moves ++ [MouseUp eu])%list
    with ([CueMouseDown c] ++ map MouseMove moves ++ [MouseUp eu])%list.
  rewrite !TimelineFacts.run_app. cbn [run step fst snd app].
  rewrite (drag_moves cont p moves (handleCueMouseDown c st) Hid).
  cbn [fst snd]. unfold handleGlobalMouseUp.
  cbn [handleCueMouseDown setDraggingCueId draggingCueId isPanning].
  rewrite Hid, Hpan. cbn [fst snd]. rewrite !app_nil_r.
  repeat split. exact Hpan.
Qed.

Lemma cue_drag_gesture_witness :
  let cont := mkContainer (mkRect (Fin 10) (Fin 20) (Fin 800) (Fin 400))
                (Fin 800) (Fin 400) in
  let p := mkProps (Fin 0) (Fin 60) in
  let c := mkCue (VStr "a") (Fin 1) (VStr "one") (VStr "#ef4444") (Fin 0) in
  let e1 := mkMouse (Fin 533) (Fin 1000) in
  let r := run (Some cont) p [CueMouseDown c; MouseMove e1;
                              MouseUp e1] initial in
  snd r = [onUpdateCue (VStr "a")
             (timeRow (dragTime e1 (getBoundingClientRect cont) p initial)
                (dragRow e1 (getBoundingClientRect cont)))] /\
  viewCenterTime (fst r) = Fin 0.
Proof.
  intros cont p c e1.
  destruct (cue_drag_gesture cont p initial c [e1] e1 eq_refl eq_refl)
    as (H1 & H2 & _).
  split; [exact H1|exact H2].
Defined.

Lemma handleSeek_currentTime (t ctxTime : num) (app : App.State) :
  App.currentTime (handleSeek t ctxTime app) = t /\
  cues (handleSeek t ctxTime app) = cues app /\
  App.duration (handleSeek t ctxTime app) = App.duration app.
Proof.
  unfold handleSeek, playAudio.
  destruct (isPlaying app); simpl;
    try destruct (audioBuffer app); simpl; repeat split; reflexivity.
Qed.

(** X26.  Whatever a pointer-up makes the parent do leaves the playback
    position inside the file: after the callbacks of a pointer-up are
    dispatched, the current time of the project is within [0, duration],
    wherever the pointer was released, and the cues are untouched. *)
Theorem release_seeks_in_range (e : MouseEvent) (cont : Container)
  (p : Props) (st : State) (ctxTime : num) (app : App.State)
  (cb : callback) (z c d x l w : Q) :
  zoom st = Fin z -> 0 < z -> viewCenterTime st = Fin c ->
  duration p = Fin d -> 0 <= d ->
  clientX e = Fin x ->
  left (getBoundingClientRect cont) = Fin l ->
  width (getBoundingClientRect cont) = Fin w ->
  In cb (snd (handleGlobalMouseUp e (Some cont) p st)) ->
  within (Fin d) (App.currentTime (dispatch ctxTime cb app)) /\
  cues (dispatch ctxTime cb app) = cues app.
Proof.
  intros Hz Hpos Hc Hd Hd0 Hx Hl Hw Hin.
  unfold handleGlobalMouseUp in Hin.
  destruct (isPanning st); [|contradiction].
  destruct (Math_abs (clientX e - dragStartX st) <? Fin 5)%num;
    [|contradiction].
  destruct Hin as [Hcb|[]]. subst cb. cbn [dispatch].
  destruct (handleSeek_currentTime
              (clamp (duration p)
                 (xToTime st (width (getBoundingClientRect cont))
                    (clientX e - left (getBoundingClientRect cont))))
              ctxTime app) as (Ht & Hcues & _).
  rewrite Ht. split; [|exact Hcues].
  rewrite Hd, Hw, Hx, Hl, nsub_fin.
  rewrite (ViewFacts.xToTime_fin st z c Hz Hc Hpos).
  apply TimelineFacts.clamp_within. exact Hd0.
Qed.

Lemma release_seeks_in_range_witness :
  let cont := mkContainer (mkRect (Fin 0) (Fin 0) (Fin 800) (Fin 400))
                (Fin 800) (Fin 400) in
  let p := mkProps (Fin 0) (Fin 60) in
  let st := handleMouseDown (mkMouse (Fin 790) (Fin 5)) initial in
  let e := mkMouse (Fin 791) (Fin 5) in
  let app := App.mkState None None false (Fin 0) (Fin 60) [] None
               (Fin 0) (Fin 0) in
  within (Fin 60)
    (App.currentTime
       (dispatch (Fin 0)
          (onSeek (clamp (Fin 60) (xToTime st (Fin 800) (Fin 791 - Fin 0))))
          app)).
Proof.
  intros cont p st e app.
  apply (release_seeks_in_range e cont p st (Fin 0) app _ 100 0 60 791 0 800
           eq_refl eq_refl eq_refl eq_refl ltac:(discriminate)
           eq_refl eq_refl eq_refl (or_introl eq_refl)).
Defined.

End GestureFacts.

(* ================================================================== *)
(** * What is drawn *)
(* ================================================================== *)

Module DrawFacts.

Import App Timeline.

Local Open Scope string_scope.

(** X19.  Over the range of the zoom slider the lines of the time ruler
    are never closer than 50 pixels nor farther apart than 300: the
    spacing, [gridInterval * zoom], stays within these bounds. *)
Theorem grid_spacing (z : Q) :
  10 <= z -> z <= 600 ->
  exists g : Q,
    gridInterval (Fin z) = Fin g /\
    (g == 1 # 2 \/ g == 1 \/ g == 5 \/ g == 10) /\
    50 <= g * z /\ g * z <= 300.
Proof.
  intros Hlo Hhi. unfold gridInterval. cbn [ngt nlt].
  destruct (Qlt_bool z 20) eqn:E20.
  - apply Qlt_bool_iff in E20. exists 10.
    split; [reflexivity|].
    split; [right; right; right; reflexivity|]. split; lra.
  - apply Qlt_bool_false_iff in E20.
    destruct (Qlt_bool z 50) eqn:E50.
    + apply Qlt_bool_iff in E50. exists 5.
      split; [reflexivity|].
      split; [right; right; left; reflexivity|]. split; lra.
    + apply Qlt_bool_false_iff in E50.
      destruct (Qlt_bool 200 z) eqn:E200.
      * apply Qlt_bool_iff in E200. exists (1 # 2).
        split; [reflexivity|]. split; [left; reflexivity|]. split; lra.
      * apply Qlt_bool_false_iff in E200. exists 1.
        split; [reflexivity|]. split; [right; left; reflexivity|].
        split; lra.
Qed.

Lemma grid_spacing_witness :
  exists g : Q, gridInterval (Fin 100) = Fin g /\ 50 <= g * 100.
Proof.
  destruct (grid_spacing 100 ltac:(discriminate) ltac:(discriminate))
    as (g & Hg & _ & Hlo & _).
  exists g. split; assumption.
Defined.

Lemma window_pixels (z c w t : Q) :
  0 < z -> c - w / 2 / z <= t -> t <= c + w / 2 / z ->
  0 <= (t + - (c + - (w / 2 / z))) * z /\
  (t + - (c + - (w / 2 / z))) * z <= w.
Proof.
  intros Hpos H1 H2.
  assert (Hnz : ~ z == 0) by (intro E; rewrite E in Hpos; discriminate).
  assert (Hs : w / 2 / z * z == w * (1 # 2)) by (field; exact Hnz).
  set (k := w / 2 / z) in *. clearbody k.
  assert (Ha : (c - k) * z <= t * z)
    by (apply Qmult_le_r; [exact Hpos|exact H1]).
  assert (Hb : t * z <= (c + k) * z)
    by (apply Qmult_le_r; [exact Hpos|exact H2]).
  assert (E : (t + - (c + - k)) * z == t * z - c * z + k * z) by ring.
  assert (E3 : (c - k) * z == c * z - k * z) by ring.
  assert (E4 : (c + k) * z == c * z + k * z) by ring.
  rewrite E. rewrite E3 in Ha. rewrite E4 in Hb.
  split; lra.
Qed.

(** X20.  A cue whose time is inside the visible window is never left
    out of the cues layer. *)
Theorem visible_cue_rendered (cont : Container) (st : State) (cue : Cue)
  (z c w t : Q) :
  zoom st = Fin z -> 0 < z -> viewCenterTime st = Fin c ->
  clientWidth cont = Fin w -> time cue = Fin t ->
  (startT st (Fin w) <=? Fin t)%num = true ->
  (Fin t <=? endT st (Fin w))%num = true ->
  cueCulled (Some cont) st cue = false.
Proof.
  intros Hz Hpos Hc Hw Ht H1 H2.
  rewrite (ViewFacts.startT_fin st z c Hz Hc Hpos) in H1.
  rewrite (ViewFacts.endT_fin st z c Hz Hc Hpos) in H2.
  cbn [nle] in H1, H2. apply Qle_bool_iff in H1, H2.
  destruct (window_pixels z c w t Hpos H1 H2) as [Hlo Hhi].
  unfold cueCulled, getCueScreenX. rewrite Hw, Ht.
  rewrite (ViewFacts.timeToX_fin st z c Hz Hc Hpos).
  set (x := (t + - (c + - (w / 2 / z))) * z) in *. clearbody x.
  apply orb_false_iff. split.
  - cbn [nlt]. apply Qlt_bool_false_iff. lra.
  - unfold clientWidth_or. rewrite Hw. cbn [num_truthy].
    destruct (is_zero w) eqn:E; cbn [negb ngt nlt nadd];
      apply Qlt_bool_false_iff.
    + apply Qeq_bool_iff in E. lra.
    + lra.
Qed.

Lemma visible_cue_rendered_witness :
  let cont := mkContainer (mkRect (Fin 0) (Fin 0) (Fin 800) (Fin 400))
                (Fin 800) (Fin 400) in
  let cue := mkCue (VStr "a") (Fin 3) (VStr "one") (VStr "#ef4444") (Fin 0) in
  cueCulled (Some cont) initial cue = false.
Proof.
  intros cont cue.
  apply (visible_cue_rendered cont initial cue 100 0 800 3); reflexivity.
Defined.

Lemma dragRow_fin (e : MouseEvent) (rect : DOMRect) (y tp h : Q) :
  clientY e = Fin y -> top rect = Fin tp -> height rect = Fin h -> 0 < h ->
  dragRow e rect
  = Fin (inject_Z (Z.max 0 (Z.min 3 (Qfloor ((y + - tp) / (h / 4)))))).
Proof.
  intros Hy Ht Hh Hpos.
  assert (Hh4 : ~ h / 4 == 0).
  { intro E. assert (Eh : h == h / 4 * 4) by field.
    rewrite E in Eh. lra. }
  unfold dragRow. rewrite Hy, Ht, Hh.
  replace (Fin h / NUM_ROWS)%num with (Fin (h / 4)) by reflexivity.
  rewrite nsub_fin, (ndiv_fin _ _ Hh4).
  change (NUM_ROWS - Fin 1)%num with (Fin (inject_Z 3)).
  cbn [Math_floor]. rewrite Math_clamp_fin.
  rewrite TimelineFacts.Qclamp_Z by lia. reflexivity.
Qed.

(** X21.  A cue whose row comes from a drag is drawn inside the
    viewport, whatever the pointer's Y was: its marker starts at or below
    the top edge and ends at or above the bottom edge. *)
Theorem dragged_marker_inside (cont : Container) (e : MouseEvent)
  (rect : DOMRect) (cue : Cue) (y tp hr h : Q) :
  clientY e = Fin y -> top rect = Fin tp -> height rect = Fin hr -> 0 < hr ->
  row cue = dragRow e rect ->
  clientHeight cont = Fin h -> 0 < h ->
  exists yq mh : Q,
    cueY (Some cont) cue = Fin yq /\ markerHeight (Some cont) = Fin mh /\
    0 <= yq /\ yq + mh <= h.
Proof.
  intros Hy Ht Hhr Hpos Hrow Hh Hhpos.
  rewrite (dragRow_fin e rect y tp hr Hy Ht Hhr Hpos) in Hrow.
  set (r := Z.max 0 (Z.min 3 (Qfloor ((y + - tp) / (hr / 4))))) in *.
  assert (Hr : (0 <= r <= 3)%Z) by (subst r; lia).
  assert (Hm : markerHeight (Some cont) = Fin (h / 4)).
  { unfold markerHeight, clientHeight_or. rewrite Hh. cbn [num_truthy].
    rewrite is_zero_false; [reflexivity|].
    intro E. rewrite E in Hhpos. discriminate. }
  exists (inject_Z r * (h / 4)), (h / 4).
  split; [unfold cueY; rewrite Hrow, Hm; reflexivity|].
  split; [exact Hm|].
  assert (E : h / 4 == h * (1 # 4)) by field.
  rewrite E.
  destruct Hr as [Hr0 Hr3]. rewrite Zle_Qle in Hr0, Hr3.
  change (inject_Z 0) with 0 in Hr0. change (inject_Z 3) with 3 in Hr3.
  set (q := inject_Z r) in *. clearbody q.
  split; nra.
Qed.

Lemma dragged_marker_inside_witness :
  let cont := mkContainer (mkRect (Fin 0) (Fin 0) (Fin 800) (Fin 400))
                (Fin 800) (Fin 400) in
  let rect := getBoundingClientRect cont in
  let e := mkMouse (Fin 10) (Fin 9999) in
  let cue := mkCue (VStr "a") (Fin 3) (VStr "one") (VStr "#ef4444")
               (dragRow e rect) in
  exists yq mh : Q,
    cueY (Some cont) cue = Fin yq /\ markerHeight (Some cont) = Fin mh /\
    0 <= yq /\ yq + mh <= 400.
Proof.
  intros cont rect e cue.
  apply (dragged_marker_inside cont e rect cue 9999 0 400 400);
    reflexivity.
Defined.

End DrawFacts.

(* ================================================================== *)
(** * More about the cue list *)
(* ================================================================== *)

Module ListFacts.

Import App CueList.

Local Open Scope string_scope.

Lemma sorted_length (cues : list Cue) :
  List.length (sortedCues cues) = List.length cues.
Proof.
  symmetry. apply Permutation_length. apply CueListFacts.Array_sort_perm.
Qed.

(** X22.  The row the list scrolls to always exists: the scroll index is
    absent exactly when there is no cue, it is the index of the next cue
    when there is one, and otherwise the index of the last row. *)
Theorem scroll_index_in_range (cues : list Cue) (currentTime : num) :
  (scrollIndex cues currentTime = None <-> cues = []) /\
  (forall i : nat,
     scrollIndex cues currentTime = Some i ->
     (i < List.length cues)%nat /\
     (nextIndex cues currentTime = None -> S i = List.length cues)).
Proof.
  unfold scrollIndex, nextIndex.
  destruct (findIndex (fun c => (time c >? currentTime)%num)
              (sortedCues cues)) as [k|] eqn:E.
  - destruct (CueListFacts.findIndex_Some _ _ _ E) as (x & Hx & _).
    assert (Hk : (k < List.length (sortedCues cues))%nat)
      by (apply nth_error_Some; congruence).
    rewrite sorted_length in Hk.
    split.
    + split; [discriminate|]. intro H. subst cues. simpl in Hk. lia.
    + intros i Hi. inversion Hi; subst. split; [exact Hk|discriminate].
  - pose proof (sorted_length cues) as Hlen.
    destruct (sortedCues cues) as [|c rest]; simpl in *.
    + split.
      * split; [|reflexivity]. intros _.
        destruct cues; [reflexivity|discriminate].
      * intros i Hi. discriminate.
    + split.
      * split; [discriminate|]. intro H. subst cues. discriminate.
      * intros i Hi. inversion Hi; subst. split; [lia|]. intros _. exact Hlen.
Qed.

Lemma nle_refl (a : num) : is_nan a = false -> (a <=? a)%num = true.
Proof.
  destruct a as [q| | |]; simpl; intro H; try reflexivity; try discriminate.
  apply Qle_bool_iff. apply Qle_refl.
Qed.

Lemma ascending_nth (l : list Cue) (i j : nat) (a b : Cue) :
  ascending l -> (i < j)%nat ->
  nth_error l i = Some a -> nth_error l j = Some b ->
  (time a <=? time b)%num = true.
Proof.
  intro Hs.
  assert (Hss : StronglySorted (fun a b => (time a <=? time b)%num = true) l).
  { apply Sorted_StronglySorted; [|exact Hs].
    intros x y w Hxy Hyw. eapply nle_trans; eassumption. }
  clear Hs. revert i j.
  induction Hss as [|c l Hss IH Hall]; intros i j Hij Hi Hj.
  - destruct i; discriminate.
  - destruct j as [|j]; [lia|]. simpl in Hj.
    destruct i as [|i]; simpl in Hi.
    + inversion Hi; subst.
      rewrite Forall_forall in Hall. apply Hall.
      eapply nth_error_In. exact Hj.
    + apply (IH i j); [lia|assumption|assumption].
Qed.

(** X23.  When no cue time is [NaN], the next cue is the earliest of the
    cues later than the current time: no cue later than the current time
    is earlier than it. *)
Theorem next_cue_is_earliest (cues : list Cue) (currentTime : num)
  (next other : Cue) :
  comparable cues ->
  nextCue cues currentTime = Some next ->
  In other cues -> (time other >? currentTime)%num = true ->
  (time next >? currentTime)%num = true /\
  (time next <=? time other)%num = true.
Proof.
  intros Hcmp Hnext Hin Hlater.
  pose proof (CueListFacts.sortedCues_ascending cues Hcmp) as Hasc.
  unfold nextCue, nextIndex in Hnext.
  destruct (findIndex (fun c => (time c >? currentTime)%num)
              (sortedCues cues)) as [i|] eqn:E; [|discriminate].
  destruct (CueListFacts.findIndex_Some _ _ _ E) as (x & Hx & Hfx & Hbefore).
  rewrite Hx in Hnext. inversion Hnext; subst x. split; [exact Hfx|].
  assert (Hin' : In other (sortedCues cues)).
  { eapply Permutation_in; [apply CueListFacts.Array_sort_perm|exact Hin]. }
  apply In_nth_error in Hin'. destruct Hin' as [j Hj].
  destruct (Nat.lt_trichotomy j i) as [Hlt|[Heq|Hgt]].
  - specialize (Hbefore j other Hlt Hj). simpl in Hbefore. congruence.
  - subst j. rewrite Hx in Hj. inversion Hj; subst.
    apply nle_refl. unfold comparable in Hcmp.
    rewrite Forall_forall in Hcmp. apply Hcmp. exact Hin.
  - eapply ascending_nth; eassumption.
Qed.

Lemma next_cue_is_earliest_witness :
  let a := mkCue (VStr "a") (Fin 10) (VStr "one") (VStr "#ef4444") (Fin 0) in
  let b := mkCue (VStr "b") (Fin 4) (VStr "two") (VStr "#22c55e") (Fin 1) in
  let c := mkCue (VStr "c") (Fin 7) (VStr "three") (VStr "#22c55e") (Fin 1) in
  (time c >? Fin 5)%num = true /\ (time c <=? time a)%num = true.
Proof.
  intros a b c.
  apply (next_cue_is_earliest [a; b; c] (Fin 5) c a).
  - repeat constructor.
  - reflexivity.
  - left. reflexivity.
  - reflexivity.
Defined.

Lemma past_monotone (a b : num) (q k : Q) :
  (a <=? b)%num = true ->
  (b - Fin q <? Fin k)%num = true -> (a - Fin q <? Fin k)%num = true.
Proof.
  destruct a as [x| | |], b as [y| | |]; simpl; intros H1 H2;
    try discriminate; try reflexivity.
  apply Qle_bool_iff in H1. apply Qlt_bool_iff in H2. apply Qlt_bool_iff.
  lra.
Qed.

(** X24.  The rows marked as passed come first: when no cue time is
    [NaN], a row above a passed row is passed too. *)
Theorem passed_rows_first (cues : list Cue) (ct : Q) (i j : nat)
  (ri rj : RowView) :
  comparable cues -> (i < j)%nat ->
  nth_error (rows cues (Fin ct)) i = Some ri ->
  nth_error (rows cues (Fin ct)) j = Some rj ->
  isPast rj = true -> isPast ri = true.
Proof.
  intros Hcmp Hij Hi Hj Hp.
  pose proof (CueListFacts.sortedCues_ascending cues Hcmp) as Hasc.
  unfold rows, mapi in Hi, Hj.
  rewrite CueListFacts.nth_error_mapi_from in Hi, Hj.
  destruct (nth_error (sortedCues cues) i) as [a|] eqn:Ea; [|discriminate].
  destruct (nth_error (sortedCues cues) j) as [b|] eqn:Eb; [|discriminate].
  simpl in Hi, Hj. inversion Hi; subst ri. inversion Hj; subst rj.
  simpl in *.
  eapply past_monotone; [|exact Hp].
  eapply ascending_nth; eassumption.
Qed.

Lemma passed_rows_first_witness :
  let a := mkCue (VStr "a") (Fin 10) (VStr "one") (VStr "#ef4444") (Fin 0) in
  let b := mkCue (VStr "b") (Fin 4) (VStr "two") (VStr "#22c55e") (Fin 1) in
  exists ri rj : RowView,
    nth_error (rows [a; b] (Fin 20)) 0 = Some ri /\
    nth_error (rows [a; b] (Fin 20)) 1 = Some rj /\
    isPast ri = true.
Proof.
  intros a b. eexists. eexists.
  split; [reflexivity|]. split; [reflexivity|].
  eapply (passed_rows_first [a; b] 20 0 1).
  - repeat constructor.
  - lia.
  - reflexivity.
  - reflexivity.
  - reflexivity.
Defined.

Lemma progress_formula_range (ct tc pv : Q) :
  exists q : Q,
    (if (Fin ct >=? Fin pv)%num && (Fin ct <=? Fin tc)%num
     then if (Fin tc - Fin pv >? Fin 0)%num
          then ((Fin ct - Fin pv) / (Fin tc - Fin pv) * Fin 100)%num
          else Fin 100
     else if (Fin ct >? Fin tc)%num then Fin 100 else Fin 0) = Fin q /\
    0 <= q <= 100.
Proof.
  cbn [nge nle ngt nlt]. rewrite !nsub_fin. cbn [nlt].
  destruct (Qle_bool pv ct && Qle_bool ct tc) eqn:Ew.
  - apply andb_true_iff in Ew. destruct Ew as [E1 E2].
    apply Qle_bool_iff in E1, E2.
    destruct (Qlt_bool 0 (tc + - pv)) eqn:Ed.
    + apply Qlt_bool_iff in Ed.
      assert (Hnz : ~ tc + - pv == 0) by lra.
      rewrite (ndiv_fin _ _ Hnz). cbn [nmul].
      eexists. split; [reflexivity|].
      set (k := (ct + - pv) / (tc + - pv)).
      assert (Hk : k * (tc + - pv) == ct + - pv)
        by (subst k; field; exact Hnz).
      assert (H0 : 0 * (tc + - pv) <= k * (tc + - pv)) by (rewrite Hk; lra).
      assert (H1 : k * (tc + - pv) <= 1 * (tc + - pv)) by (rewrite Hk; lra).
      apply Qmult_le_r in H0; [|exact Ed].
      apply Qmult_le_r in H1; [|exact Ed].
      clearbody k. split; lra.
    + exists 100. split; [reflexivity|]. split; discriminate.
  - destruct (Qlt_bool tc ct).
    + exists 100. split; [reflexivity|]. split; discriminate.
    + exists 0. split; [reflexivity|]. split; discriminate.
Qed.

(** X25.  When every cue time is finite, the progress of every row is a
    percentage: a number from 0 to 100. *)
Theorem progress_is_percentage (cues : list Cue) (ct : Q) (r : RowView) :
  Forall (fun c => is_finite (time c) = true) cues ->
  In r (rows cues (Fin ct)) ->
  exists q : Q, progressPercent r = Fin q /\ 0 <= q <= 100.
Proof.
  intros Hfin Hin.
  assert (Hfs : Forall (fun c => is_finite (time c) = true) (sortedCues cues)).
  { eapply Permutation_Forall; [apply CueListFacts.Array_sort_perm|].
    exact Hfin. }
  rewrite Forall_forall in Hfs.
  apply In_nth_error in Hin. destruct Hin as [i Hi].
  unfold rows, mapi in Hi. rewrite CueListFacts.nth_error_mapi_from in Hi.
  destruct (nth_error (sortedCues cues) i) as [c|] eqn:Ec; [|discriminate].
  simpl in Hi. inversion Hi; subst r. clear Hi.
  pose proof (Hfs c (nth_error_In _ _ Ec)) as Hc.
  destruct (time c) as [tc| | |] eqn:Etc; try discriminate.
  assert (Hpv : exists pv : Q,
            prevTime (row_view (Fin ct) (sortedCues cues) c i) = Fin pv).
  { destruct i as [|j]; [exists 0; reflexivity|]. simpl.
    destruct (nth_error (sortedCues cues) j) as [prev|] eqn:Ej.
    - pose proof (Hfs prev (nth_error_In _ _ Ej)) as Hprev.
      destruct (time prev) as [tp| | |]; try discriminate.
      exists tp. reflexivity.
    - exfalso. apply nth_error_None in Ej.
      assert (Hlt : (S j < List.length (sortedCues cues))%nat)
        by (apply nth_error_Some; congruence).
      lia. }
  destruct Hpv as [pv Hpv].
  set (rv := row_view (Fin ct) (sortedCues cues) c i) in *.
  assert (Hp : progressPercent rv =
    if (Fin ct >=? prevTime rv)%num && (Fin ct <=? time c)%num
    then if (time c - prevTime rv >? Fin 0)%num
         then ((Fin ct - prevTime rv) / (time c - prevTime rv) * Fin 100)%num
         else Fin 100
    else if (Fin ct >? time c)%num then Fin 100 else Fin 0)
    by reflexivity.
  rewrite Hp, Hpv, Etc. apply progress_formula_range.
Qed.

Lemma progress_is_percentage_witness :
  let a := mkCue (VStr "a") (Fin 10) (VStr "one") (VStr "#ef4444") (Fin 0) in
  let b := mkCue (VStr "b") (Fin 4) (VStr "two") (VStr "#22c55e") (Fin 1) in
  exists (r : RowView) (q : Q),
    nth_error (rows [a; b] (Fin 7)) 1 = Some r /\
    progressPercent r = Fin q /\ 0 <= q <= 100.
Proof.
  intros a b.
  destruct (nth_error (rows [a; b] (Fin 7)) 1) as [r|] eqn:E;
    [|discriminate].
  destruct (progress_is_percentage [a; b] 7 r) as (q & Hq & Hr).
  - repeat constructor.
  - eapply nth_error_In. exact E.
  - exists r, q. repeat split; try assumption; apply Hr.
Defined.

End ListFacts.

(* ================================================================== *)
(** * The waveform peaks *)
(* ================================================================== *)

Module WaveformFacts.

Import App Timeline.

Local Open Scope string_scope.

Lemma abs_sample (cd : list num) (k : nat) :
  finite_samples cd -> (k < List.length cd)%nat ->
  exists q : Q, Math_abs (nth k cd NaN) = Fin q /\ 0 <= q.
Proof.
  intros Hf Hk. unfold finite_samples in Hf. rewrite Forall_forall in Hf.
  pose proof (Hf _ (nth_In cd NaN Hk)) as Hx.
  destruct (nth k cd NaN) as [q| | |]; try discriminate.
  exists (Qabs q). split; [reflexivity|apply Qabs_nonneg].
Qed.

Lemma fold_sum_nonneg (cd : list num) (start : nat) (ks : list nat) :
  finite_samples cd ->
  (forall k : nat, In k ks -> (start + 10 * k < List.length cd)%nat) ->
  forall a : Q,
    0 <= a ->
    exists q : Q,
      fold_left
        (fun sum k => (sum + Math_abs (nth (start + 10 * k) cd NaN))%num)
        ks (Fin a) = Fin q /\ 0 <= q.
Proof.
  intros Hf. induction ks as [|k ks IH]; intros Hks a Ha; cbn [fold_left].
  - exists a. split; [reflexivity|exact Ha].
  - destruct (abs_sample cd (start + 10 * k) Hf (Hks k (or_introl eq_refl)))
      as (x & Hx & Hx0).
    rewrite Hx. cbn [nadd].
    apply IH.
    + intros k' Hk'. apply Hks. right. exact Hk'.
    + lra.
Qed.

Lemma block_sum_nonneg (cd : list num) (start blockSize : nat) :
  finite_samples cd -> (start + blockSize <= List.length cd)%nat ->
  exists q : Q, block_sum cd start blockSize = Fin q /\ 0 <= q.
Proof.
  intros Hf Hlen. unfold block_sum.
  apply fold_sum_nonneg; [exact Hf| |apply Qle_refl].
  intros k Hk. apply in_seq in Hk.
  assert (H10 : (10 * ((blockSize + 9) / 10) <= blockSize + 9)%nat)
    by (apply Nat.Div0.mul_div_le).
  lia.
Qed.

Lemma raw_peak_nonneg (cd : list num) (n i : nat) :
  finite_samples cd -> (i < n)%nat -> (n <= List.length cd)%nat ->
  let blockSize := (List.length cd / n)%nat in
  exists q : Q,
    (block_sum cd (i * blockSize) blockSize / (of_nat blockSize / Fin 10))%num
    = Fin q /\ 0 <= q.
Proof.
  intros Hf Hi Hn blockSize.
  assert (Hbs : (0 < blockSize)%nat).
  { subst blockSize. apply Nat.div_str_pos. lia. }
  assert (Hfit : (i * blockSize + blockSize <= List.length cd)%nat).
  { assert (H1 : (n * blockSize <= List.length cd)%nat)
      by (subst blockSize; apply Nat.Div0.mul_div_le).
    nia. }
  destruct (block_sum_nonneg cd (i * blockSize) blockSize Hf Hfit)
    as (sm & Hs & Hs0).
  rewrite Hs.
  replace (of_nat blockSize / Fin 10)%num
    with (Fin (inject_Z (Z.of_nat blockSize) / 10)) by reflexivity.
  assert (Hden : 0 < inject_Z (Z.of_nat blockSize) / 10).
  { assert (E : inject_Z (Z.of_nat blockSize) / 10
                == inject_Z (Z.of_nat blockSize) * (1 # 10)) by field.
    rewrite E.
    assert (Hb : 0 < inject_Z (Z.of_nat blockSize)).
    { change 0 with (inject_Z 0). rewrite <- Zlt_Qlt. lia. }
    lra. }
  assert (Hnz : ~ inject_Z (Z.of_nat blockSize) / 10 == 0) by lra.
  rewrite (ndiv_fin _ _ Hnz).
  eexists. split; [reflexivity|].
  apply Qle_shift_div_l; [exact Hden|lra].
Qed.

Lemma raw_peaks_nonneg (cd : list num) (n : nat) :
  finite_samples cd -> (n <= List.length cd)%nat ->
  Forall (fun pk => exists q : Q, pk = Fin q /\ 0 <= q)
         (raw_peaks cd n (List.length cd / n)).
Proof.
  intros Hf Hn. unfold raw_peaks. apply Forall_forall. intros pk Hpk.
  apply in_map_iff in Hpk. destruct Hpk as (i & <- & Hi).
  apply in_seq in Hi.
  apply (raw_peak_nonneg cd n i Hf); lia.
Qed.

Lemma fold_max_spec (peaks : list num) :
  Forall (fun pk => exists q : Q, pk = Fin q /\ 0 <= q) peaks ->
  forall a : Q,
    0 <= a ->
    exists m : Q,
      fold_left (fun mx pk => if (pk >? mx)%num then pk else mx) peaks (Fin a)
      = Fin m /\ a <= m /\
      Forall (fun pk => exists q : Q, pk = Fin q /\ 0 <= q /\ q <= m) peaks /\
      (m = a \/ In (Fin m) peaks).
Proof.
  induction 1 as [|pk peaks (q & -> & Hq) Hrest IH]; intros a Ha;
    cbn [fold_left].
  - exists a. split; [reflexivity|]. split; [apply Qle_refl|].
    split; [constructor|left; reflexivity].
  - cbn [ngt nlt].
    destruct (Qlt_bool a q) eqn:E.
    + apply Qlt_bool_iff in E.
      destruct (IH q Hq) as (m & Hm & Hqm & Hall & Hor).
      exists m. split; [exact Hm|]. split; [lra|]. split.
      * constructor; [|exact Hall].
        exists q. repeat split; assumption.
      * right. destruct Hor as [->|Hin]; [left; reflexivity|right; exact Hin].
    + apply Qlt_bool_false_iff in E.
      destruct (IH a Ha) as (m & Hm & Ham & Hall & Hor).
      exists m. split; [exact Hm|]. split; [exact Ham|]. split.
      * constructor; [|exact Hall].
        exists q. repeat split; [exact Hq|lra].
      * destruct Hor as [->|Hin]; [left; reflexivity|right; right; exact Hin].
Qed.

Lemma normalise_peak (q m : Q) :
  0 <= q -> q <= m ->
  between 0 1 (Fin q * (Fin 1 / (if num_truthy (Fin m) then Fin m else Fin 1)))%num.
Proof.
  intros Hq Hm. cbn [num_truthy].
  destruct (is_zero m) eqn:E; cbn [negb].
  - apply Qeq_bool_iff in E.
    exists (q * (1 / 1)). split; [reflexivity|].
    assert (E1 : q * (1 / 1) == q) by field. rewrite E1. split; lra.
  - assert (Hnz : ~ m == 0).
    { intro Hz. apply Qeq_bool_iff in Hz. unfold is_zero in E. congruence. }
    rewrite (ndiv_fin _ _ Hnz). cbn [nmul].
    exists (q * (1 / m)). split; [reflexivity|].
    assert (Hpos : 0 < m) by lra.
    assert (E1 : q * (1 / m) == q / m) by (field; exact Hnz).
    rewrite E1. split.
    + apply Qle_shift_div_l; [exact Hpos|lra].
    + apply Qle_shift_div_r; [exact Hpos|lra].
Qed.

(** X27.  For a decoded buffer of finite samples that holds at least one
    sample per peak, the waveform is one peak for every 1/200 second of
    the duration, rounded up, and every peak is a number from 0 to 1. *)
Theorem peaks_normalised (b : AudioBuffer) (d : Q) :
  finite_samples (buf_channel0 b) -> 0 < d ->
  (Qceiling (d * 200) <= Z.of_nat (List.length (buf_channel0 b)))%Z ->
  exists peaks : list num,
    waveformPeaks (Some b) (Fin d) = Some peaks /\
    List.length peaks = Z.to_nat (Qceiling (d * 200)) /\
    Forall (between 0 1) peaks.
Proof.
  intros Hf Hd Hlen.
  assert (Hc : (0 < Qceiling (d * 200))%Z).
  { assert (H : 0 < inject_Z (Qceiling (d * 200))).
    { eapply Qlt_le_trans; [|apply Qle_ceiling]. lra. }
    change 0 with (inject_Z 0) in H. rewrite <- Zlt_Qlt in H. exact H. }
  unfold waveformPeaks. cbn [nmul Math_ceil typed_array_length].
  assert (Hle : Qle_bool (inject_Z (Qceiling (d * 200))) (- (1)) = false).
  { apply Qle_bool_false_iff.
    change (- (1)) with (inject_Z (-1)). rewrite <- Zlt_Qlt. lia. }
  rewrite Hle, Qfloor_Z.
  set (n := Z.to_nat (Qceiling (d * 200))).
  assert (Hn : (n <= List.length (buf_channel0 b))%nat) by (subst n; lia).
  pose proof (raw_peaks_nonneg (buf_channel0 b) n Hf Hn) as Hraw.
  set (raw := raw_peaks (buf_channel0 b) n
                (List.length (buf_channel0 b) / n)) in *.
  destruct (fold_max_spec raw Hraw 0 (Qle_refl 0))
    as (m & Hm & _ & Hall & _).
  eexists. split; [reflexivity|]. split.
  - rewrite length_map. subst raw. unfold raw_peaks.
    rewrite length_map, length_seq. reflexivity.
  - unfold peak_max. rewrite Hm.
    apply Forall_forall. intros pk Hpk.
    apply in_map_iff in Hpk. destruct Hpk as (x & <- & Hx).
    rewrite Forall_forall in Hall.
    destruct (Hall x Hx) as (q & -> & Hq0 & Hqm).
    apply normalise_peak; assumption.
Qed.

Lemma peaks_normalised_witness :
  let b := mkBuffer (Fin (1 # 100))
             [Fin (1 # 2); Fin (- (1)); Fin (1 # 4); Fin 0] in
  exists peaks : list num,
    waveformPeaks (Some b) (Fin (1 # 100)) = Some peaks /\
    List.length peaks = 2%nat /\ Forall (between 0 1) peaks.
Proof.
  intros b.
  apply (peaks_normalised b (1 # 100)).
  - repeat constructor.
  - reflexivity.
  - discriminate.
Defined.

(** The buffer of the witness, computed through: the blocks are two
    samples long, the loop reads the first of each, and the larger peak
    becomes 1 (here the fraction 40/40), the other a half. *)
Example peaks_example :
  waveformPeaks
    (Some (mkBuffer (Fin (1 # 100))
             [Fin (1 # 2); Fin (- (1)); Fin (1 # 4); Fin 0]))
    (Fin (1 # 100))
  = Some [Fin (40 # 40); Fin (40 # 80)].
Proof. vm_compute. reflexivity. Qed.

Lemma silent_finite (cd : list num) : silent cd -> finite_samples cd.
Proof.
  unfold silent, finite_samples. apply Forall_impl.
  intros x (q & -> & _). reflexivity.
Qed.

Lemma fold_sum_zero (cd : list num) (start : nat) (ks : list nat) :
  silent cd ->
  (forall k : nat, In k ks -> (start + 10 * k < List.length cd)%nat) ->
  forall a : Q,
    a == 0 ->
    exists q : Q,
      fold_left
        (fun sum k => (sum + Math_abs (nth (start + 10 * k) cd NaN))%num)
        ks (Fin a) = Fin q /\ q == 0.
Proof.
  intros Hs. induction ks as [|k ks IH]; intros Hks a Ha; cbn [fold_left].
  - exists a. split; [reflexivity|exact Ha].
  - unfold silent in Hs. rewrite Forall_forall in Hs.
    destruct (Hs _ (nth_In cd NaN (Hks k (or_introl eq_refl))))
      as (x & Hx & Hx0).
    rewrite Hx. cbn [Math_abs nadd].
    apply IH.
    + intros k' Hk'. apply Hks. right. exact Hk'.
    + rewrite Ha, Hx0. reflexivity.
Qed.

Lemma raw_peaks_silent (cd : list num) (n : nat) :
  silent cd -> (n <= List.length cd)%nat ->
  Forall (fun pk => exists q : Q, pk = Fin q /\ q == 0)
         (raw_peaks cd n (List.length cd / n)).
Proof.
  intros Hs Hn. unfold raw_peaks. apply Forall_forall. intros pk Hpk.
  apply in_map_iff in Hpk. destruct Hpk as (i & <- & Hi).
  apply in_seq in Hi.
  set (blockSize := (List.length cd / n)%nat).
  assert (Hbs : (0 < blockSize)%nat).
  { subst blockSize. apply Nat.div_str_pos. lia. }
  assert (Hfit : (i * blockSize + blockSize <= List.length cd)%nat).
  { assert (H1 : (n * blockSize <= List.length cd)%nat)
      by (subst blockSize; apply Nat.Div0.mul_div_le).
    nia. }
  assert (Hsum : exists q : Q,
             block_sum cd (i * blockSize) blockSize = Fin q /\ q == 0).
  { unfold block_sum. apply fold_sum_zero; [exact Hs| |reflexivity].
    intros k Hk. apply in_seq in Hk.
    assert (H10 : (10 * ((blockSize + 9) / 10) <= blockSize + 9)%nat)
      by (apply Nat.Div0.mul_div_le).
    lia. }
  destruct Hsum as (sm & -> & Hs0).
  replace (of_nat blockSize / Fin 10)%num
    with (Fin (inject_Z (Z.of_nat blockSize) / 10)) by reflexivity.
  assert (Hnz : ~ inject_Z (Z.of_nat blockSize) / 10 == 0).
  { assert (E : inject_Z (Z.of_nat blockSize) / 10
                == inject_Z (Z.of_nat blockSize) * (1 # 10)) by field.
    rewrite E.
    assert (Hb : 0 < inject_Z (Z.of_nat blockSize)).
    { change 0 with (inject_Z 0). rewrite <- Zlt_Qlt. lia. }
    lra. }
  rewrite (ndiv_fin _ _ Hnz).
  eexists. split; [reflexivity|]. rewrite Hs0. field.
  intro E. apply Hnz. rewrite E. reflexivity.
Qed.

(** X28.  Under the same conditions the normalisation has two outcomes:
    every peak is 0, or the largest peak is 1.  A silent buffer gives the
    first: all its peaks are 0, none is [NaN]. *)
Theorem peaks_extremes (b : AudioBuffer) (d : Q) :
  finite_samples (buf_channel0 b) -> 0 < d ->
  (Qceiling (d * 200) <= Z.of_nat (List.length (buf_channel0 b)))%Z ->
  exists peaks : list num,
    waveformPeaks (Some b) (Fin d) = Some peaks /\
    (Forall (fun pk => pk =~ Fin 0)%num peaks \/
     Exists (fun pk => pk =~ Fin 1)%num peaks) /\
    (silent (buf_channel0 b) -> Forall (fun pk => pk =~ Fin 0)%num peaks).
Proof.
  intros Hf Hd Hlen.
  assert (Hc : (0 < Qceiling (d * 200))%Z).
  { assert (H : 0 < inject_Z (Qceiling (d * 200))).
    { eapply Qlt_le_trans; [|apply Qle_ceiling]. lra. }
    change 0 with (inject_Z 0) in H. rewrite <- Zlt_Qlt in H. exact H. }
  unfold waveformPeaks. cbn [nmul Math_ceil typed_array_length].
  assert (Hle : Qle_bool (inject_Z (Qceiling (d * 200))) (- (1)) = false).
  { apply Qle_bool_false_iff.
    change (- (1)) with (inject_Z (-1)). rewrite <- Zlt_Qlt. lia. }
  rewrite Hle, Qfloor_Z.
  set (n := Z.to_nat (Qceiling (d * 200))).
  assert (Hn : (n <= List.length (buf_channel0 b))%nat) by (subst n; lia).
  pose proof (raw_peaks_nonneg (buf_channel0 b) n Hf Hn) as Hraw.
  pose proof (fun Hs => raw_peaks_silent (buf_channel0 b) n Hs Hn) as Hsil.
  set (raw := raw_peaks (buf_channel0 b) n
                (List.length (buf_channel0 b) / n)) in *.
  destruct (fold_max_spec raw Hraw 0 (Qle_refl 0))
    as (m & Hm & Hm0 & Hall & Hor).
  eexists. split; [reflexivity|].
  unfold peak_max. rewrite Hm. cbn [num_truthy].
  assert (Hzero : m == 0 ->
            Forall (fun pk => pk =~ Fin 0)%num
              (map (fun pk =>
                      (pk * (Fin 1 / (if negb (is_zero m) then Fin m
                                      else Fin 1)))%num) raw)).
  { intro Hmz. rewrite (is_zero_true _ Hmz). cbn [negb].
    apply Forall_forall. intros pk Hpk.
    apply in_map_iff in Hpk. destruct Hpk as (x & <- & Hx).
    rewrite Forall_forall in Hall.
    destruct (Hall x Hx) as (q & -> & Hq0 & Hqm).
    simpl. assert (Hq : q == 0) by lra. rewrite Hq. reflexivity. }
  split.
  - destruct (Qeq_dec m 0) as [Hmz|Hmnz].
    + left. apply Hzero. exact Hmz.
    + right. destruct Hor as [->|Hin]; [exfalso; apply Hmnz; reflexivity|].
      apply Exists_exists.
      exists (Fin m * (Fin 1 / (if negb (is_zero m) then Fin m else Fin 1)))%num.
      split.
      * apply in_map_iff. exists (Fin m). split; [reflexivity|exact Hin].
      * rewrite (is_zero_false _ Hmnz). cbn [negb].
        rewrite (ndiv_fin _ _ Hmnz). simpl. field. exact Hmnz.
  - intro Hs. apply Hzero.
    destruct Hor as [->|Hin]; [reflexivity|].
    specialize (Hsil Hs). rewrite Forall_forall in Hsil.
    destruct (Hsil _ Hin) as (q & Hq & Hq0).
    inversion Hq; subst. exact Hq0.
Qed.

Lemma peaks_extremes_witness :
  let b := mkBuffer (Fin (1 # 100)) [Fin 0; Fin 0; Fin 0; Fin 0] in
  exists peaks : list num,
    waveformPeaks (Some b) (Fin (1 # 100)) = Some peaks /\
    Forall (fun pk => pk =~ Fin 0)%num peaks.
Proof.
  intros b.
  destruct (peaks_extremes b (1 # 100)) as (peaks & Hp & _ & Hs).
  - repeat constructor.
  - reflexivity.
  - discriminate.
  - exists peaks. split; [exact Hp|]. apply Hs.
    repeat constructor; exists 0; split; reflexivity.
Defined.

End WaveformFacts.
